(** * kittens/ssh/completion.py: completion of ssh command lines

    A shallow embedding of the completion kitten for ssh and the properties
    its specification states about it.

    Python [str] values are sequences of Unicode code points and are
    modelled as [list N]; [bytes] are [list byte]; a [dict] used as a
    mapping is a [gmap]; a call that may raise is a computation in the
    [outcome] monad. *)

From Stdlib Require Import NArith ZArith Ascii String List Lia.
From Stdlib.Strings Require Import Byte.
From stdpp Require Import base numbers option list sorting gmap.

Local Open Scope Z_scope.

(** ** Python strings *)

Abbreviation str := (list N).

(** A literal of the source, read as its sequence of code points (the
    literals of this file are ASCII). *)
Definition code_point (a : ascii) : N :=
  let '(Ascii b0 b1 b2 b3 b4 b5 b6 b7) := a in
  let bit (b : bool) (n : N) := if b then N.succ_double n else N.double n in
  bit b0 (bit b1 (bit b2 (bit b3 (bit b4 (bit b5 (bit b6 (bit b7 0%N))))))).

Definition py (s : string) : str :=
  List.map code_point (list_ascii_of_string s).

Module Py.

(** [len(s)] *)
Definition len {A : Type} (s : list A) : Z := Z.of_nat (length s).

(** [str.isspace] on one character, the class that [strip()] and
    [split()] without a separator use. *)
Definition isspace (c : N) : bool :=
  ((0x09 <=? c) && (c <=? 0x0D) || (0x1C <=? c) && (c <=? 0x20)
   || (c =? 0x85) || (c =? 0xA0) || (c =? 0x1680)
   || (0x2000 <=? c) && (c <=? 0x200A)
   || (c =? 0x2028) || (c =? 0x2029) || (c =? 0x202F) || (c =? 0x205F)
   || (c =? 0x3000))%N.

(** The line boundaries of [str.splitlines]. *)
Definition islinebreak (c : N) : bool :=
  ((0x0A <=? c) && (c <=? 0x0D) || (0x1C <=? c) && (c <=? 0x1E)
   || (c =? 0x85) || (c =? 0x2028) || (c =? 0x2029))%N.

Fixpoint lstrip (s : str) : str :=
  match s with
  | c :: s' => if isspace c then lstrip s' else s
  | [] => []
  end.

Definition rstrip (s : str) : str := rev (lstrip (rev s)).

(** [s.strip()] *)
Definition strip (s : str) : str := rstrip (lstrip s).

(** [s.split()]: the maximal runs of non-whitespace characters.  [field]
    is the run being read. *)
Fixpoint split_from (field : str) (s : str) : list str :=
  match s with
  | [] => match field with [] => [] | _ => [field] end
  | c :: s' =>
      if isspace c
      then match field with
           | [] => split_from [] s'
           | _ => field :: split_from [] s'
           end
      else split_from (field ++ [c]) s'
  end.

Definition split (s : str) : list str := split_from [] s.

(** The first run of non-whitespace characters of [s] and what follows. *)
Fixpoint word_span (s : str) : str * str :=
  match s with
  | c :: s' =>
      if isspace c then ([], s)
      else let '(w, r) := word_span s' in (c :: w, r)
  | [] => ([], [])
  end.

(** [s.split(maxsplit=n)]: at most [n] splits at whitespace; the
    remainder, without its leading whitespace, is the last field. *)
Fixpoint split_max (n : nat) (s : str) : list str :=
  match lstrip s with
  | [] => []
  | c :: t =>
      match n with
      | O => [c :: t]
      | S n' => let '(w, r) := word_span (c :: t) in w :: split_max n' r
      end
  end.

(** [s.splitlines()] *)
Fixpoint splitlines_from (line : str) (s : str) : list str :=
  match s with
  | [] => match line with [] => [] | _ => [line] end
  | c :: s' =>
      if islinebreak c
      then line :: match s' with
                   | d :: s'' =>
                       if ((c =? 0x0D) && (d =? 0x0A))%N
                       then splitlines_from [] s''
                       else splitlines_from [] s'
                   | [] => splitlines_from [] s'
                   end
      else splitlines_from (line ++ [c]) s'
  end.

Definition splitlines (s : str) : list str := splitlines_from [] s.

(** [s.startswith(p)] *)
Fixpoint startswith (s p : str) {struct p} : bool :=
  match p, s with
  | [], _ => true
  | _ :: _, [] => false
  | a :: p', b :: s' => (a =? b)%N && startswith s' p'
  end.

(** [c in s] for a one-character [c]. *)
Definition contains (s : str) (c : N) : bool := existsb (N.eqb c) s.

(** [s[i]] on a string or a list, an index below zero counting from
    the end; [None] stands for [IndexError]. *)
Definition getitem {A : Type} (s : list A) (i : Z) : option A :=
  let i := if i <? 0 then i + len s else i in
  if (i <? 0) || (len s <=? i) then None else nth_error s (Z.to_nat i).

(** A slice bound clamped into [0 .. len s], counted from the end when
    negative. *)
Definition clamp (s : str) (i : Z) : Z :=
  let i := if i <? 0 then i + len s else i in
  Z.max 0 (Z.min (len s) i).

(** [s[lo:hi]] *)
Definition slice (s : str) (lo hi : Z) : str :=
  let lo := clamp s lo in
  let hi := clamp s hi in
  firstn (Z.to_nat (hi - lo)) (skipn (Z.to_nat lo) s).

(** [s[lo:]] *)
Definition slice_from (s : str) (lo : Z) : str :=
  skipn (Z.to_nat (clamp s lo)) s.

(** The least index [>= i] at which [sub] occurs, the suffix of the
    string from index [i] on being [s]; [-1] when there is none. *)
Fixpoint find_in (s sub : str) (i : Z) : Z :=
  if startswith s sub then i
  else match s with
       | [] => -1
       | _ :: s' => find_in s' sub (i + 1)
       end.

(** [s.find(sub, start)] *)
Definition find (s sub : str) (start : Z) : Z :=
  let start := if start <? 0 then Z.max 0 (start + len s) else start in
  if len s <? start then -1
  else find_in (skipn (Z.to_nat start) s) sub start.

(** [s.split(sep, 1)] for a one-character [sep]. *)
Fixpoint split_once (s : str) (sep : N) : list str :=
  match s with
  | [] => [[]]
  | c :: s' =>
      if (c =? sep)%N then [[]; s']
      else match split_once s' sep with
           | w :: r => (c :: w) :: r
           | [] => [[c]]
           end
  end.

(** [a <= b] on strings: lexicographic on code points, the order that
    [sorted] uses. *)
Fixpoint leb (a b : str) : bool :=
  match a, b with
  | [], _ => true
  | _ :: _, [] => false
  | x :: a', y :: b' =>
      if (x <? y)%N then true
      else if (y <? x)%N then false
      else leb a' b'
  end.

Definition le (a b : str) : Prop := leb a b = true.

#[export] Instance le_dec : RelDecision le.
Proof. intros a b. unfold le. apply _. Defined.

(** [sorted(xs)] on strings. *)
Definition sorted (xs : list str) : list str := merge_sort le xs.

End Py.

Example split_demo :
  Py.split (Py.strip (py "  1.2.3.4   foo bar ")) = [py "1.2.3.4"; py "foo"; py "bar"].
Proof. reflexivity. Qed.

Example split_max_demo :
  Py.split_max 2 (py "-4  -- force ssh to  use ") = [py "-4"; py "--"; py "force ssh to  use "].
Proof. reflexivity. Qed.

Example find_demo : Py.find (py "ab[cd[") (py "[") 3 = 5.
Proof. reflexivity. Qed.

Example sorted_demo : Py.sorted [py "b"; py "a"; py "ab"] = [py "a"; py "ab"; py "b"].
Proof. vm_compute. reflexivity. Qed.

(** ** Exceptions and computations that may raise *)

Inductive exn : Set :=
| OSError
| UnicodeDecodeError
| IndexError
| ValueError.

(** What running a piece of the program gives: a value, an exception that
    leaves it, or [OutOfFuel] when a loop of the model was cut short (shown
    below never to be the case with the fuel the model gives its loops). *)
Inductive outcome (A : Type) : Type :=
| Ret (a : A)
| Raise (e : exn)
| OutOfFuel.

Arguments Ret {A} a.
Arguments Raise {A} e.
Arguments OutOfFuel {A}.

#[export] Instance outcome_ret : MRet outcome := @Ret.

#[export] Instance outcome_bind : MBind outcome := fun A B k m =>
  match m with
  | Ret a => k a
  | Raise e => Raise e
  | OutOfFuel => OutOfFuel
  end.

(** ** [bytes.decode('utf-8')] *)

Module Utf8.

Definition continuation (b : N) : bool := ((0x80 <=? b) && (b <=? 0xBF))%N.

(** Bounds of the second byte of a sequence led by [b0], which exclude
    overlong forms, surrogates and values above U+10FFFF. *)
Definition second_min (b0 : N) : N :=
  (if b0 =? 0xE0 then 0xA0 else if b0 =? 0xF0 then 0x90 else 0x80)%N.

Definition second_max (b0 : N) : N :=
  (if b0 =? 0xED then 0x9F else if b0 =? 0xF4 then 0x8F else 0xBF)%N.

Definition second (b0 b1 : N) : bool :=
  ((second_min b0 <=? b1) && (b1 <=? second_max b0))%N.

Fixpoint decode_codes (bs : list N) : option str :=
  match bs with
  | [] => Some []
  | b0 :: r0 =>
      if (b0 <? 0x80)%N then cons b0 <$> decode_codes r0
      else if ((0xC2 <=? b0) && (b0 <=? 0xDF))%N then
        match r0 with
        | b1 :: r1 =>
            if continuation b1
            then cons ((b0 - 0xC0) * 0x40 + (b1 - 0x80))%N <$> decode_codes r1
            else None
        | _ => None
        end
      else if ((0xE0 <=? b0) && (b0 <=? 0xEF))%N then
        match r0 with
        | b1 :: b2 :: r2 =>
            if second b0 b1 && continuation b2
            then cons ((b0 - 0xE0) * 0x1000 + (b1 - 0x80) * 0x40
                       + (b2 - 0x80))%N <$> decode_codes r2
            else None
        | _ => None
        end
      else if ((0xF0 <=? b0) && (b0 <=? 0xF4))%N then
        match r0 with
        | b1 :: b2 :: b3 :: r3 =>
            if second b0 b1 && continuation b2 && continuation b3
            then cons ((b0 - 0xF0) * 0x40000 + (b1 - 0x80) * 0x1000
                       + (b2 - 0x80) * 0x40 + (b3 - 0x80))%N
                   <$> decode_codes r3
            else None
        | _ => None
        end
      else None
  end.

(** [bs.decode('utf-8')]; [None] stands for [UnicodeDecodeError]. *)
Definition decode (bs : list byte) : option str :=
  decode_codes (List.map Byte.to_N bs).

(** The bytes of an ASCII literal. *)
Definition ascii_bytes (s : string) : list byte := list_byte_of_string s.

End Utf8.

Example decode_demo :
  Utf8.decode [x68; xc3; xa9; xe2; x82; xac]%byte = Some [0x68; 0xE9; 0x20AC]%N.
Proof. reflexivity. Qed.

Example decode_overlong : Utf8.decode [xc0; x80]%byte = None.
Proof. reflexivity. Qed.

(** ** The environment of a completion request *)

(** What [open(path)] and reading the file give. *)
Inductive file : Type :=
| Unopenable                    (* [open] raises [OSError] *)
| Readable (lines : list str)   (* the lines, each with its terminator *)
| Unreadable (e : exn).         (* opened, but iterating over it raises *)

Record environment : Type := {
  (* [open(os.path.expanduser(path))], by the path as the source writes it *)
  open_file : str -> file;
  (* [subprocess.check_output(cmd)]; [None] when it raises *)
  check_output : list str -> option (list byte);
  (* [subprocess.Popen(cmd, stderr=PIPE).stderr.read()]; [None] when
     [Popen] raises, as it does when the program cannot be run *)
  popen_stderr : list str -> option (list byte)
}.

(** [s[i]] as a computation. *)
Definition index {A : Type} (s : list A) (i : Z) : outcome A :=
  match Py.getitem s i with
  | Some x => Ret x
  | None => Raise IndexError
  end.

(** [kitty.complete.Completions], of which this program touches
    [match_groups] only. *)
Record Completions : Type := {
  match_groups : gmap str (gmap str str)
}.

Section Completion.

(** [\d] of the [re] module on a [str] pattern: the decimal digits of
    the Unicode database the interpreter was built with. *)
Variable isdigit : N -> bool.

(** *** Line sources *)

Definition lines_from_file (env : environment) (path : str)
  : outcome (list str) :=
  match open_file env path with
  | Unopenable => Ret []
  | Readable lines => Ret lines
  | Unreadable e => Raise e
  end.

Definition lines_from_command (env : environment) (cmd : list str)
  : outcome (list str) :=
  match check_output env cmd with
  | None => Ret []
  | Some bytes =>
      match Utf8.decode bytes with
      | None => Ret []
      | Some output => Ret (Py.splitlines output)
      end
  end.

Definition parts_yielder (lines : outcome (list str))
    (pfilter : str -> list str) : outcome (list str) :=
  ls ← lines; Ret (concat (List.map pfilter ls)).

(** *** Filters *)

Definition hosts_from_config_lines (line : str) : list str :=
  match Py.split (Py.strip line) with
  | p0 :: p1 :: _ => if bool_decide (p0 = py "Host") then [p1] else []
  | _ => []
  end.

(** [$]: at the end of the string, or before a newline that ends it. *)
Definition at_end (s : str) : bool :=
  match s with
  | [] => true
  | [c] => (c =? 0x0A)%N
  | _ => false
  end.

(** [\d+$] matched at the head of [s], as many digits as possible first:
    the number of characters matched. *)
Fixpoint digits_to_end (s : str) : option nat :=
  match s with
  | c :: s' =>
      if isdigit c
      then match digits_to_end s' with
           | Some k => Some (S k)
           | None => if at_end s' then Some 1%nat else None
           end
      else None
  | [] => None
  end.

(** [re.sub(r':\d+$', '', s)], left to right; [skip] characters of a
    match found are still to be dropped. *)
Fixpoint sub_port_from (skip : nat) (s : str) : str :=
  match s with
  | [] => []
  | c :: s' =>
      match skip with
      | S k => sub_port_from k s'
      | O =>
          if (c =? 0x3A)%N
          then match digits_to_end s' with
               | Some k => sub_port_from k s'
               | None => c :: sub_port_from O s'
               end
          else c :: sub_port_from O s'
      end
  end.

Definition sub_port (s : str) : str := sub_port_from O s.

Definition hosts_from_known_hosts (line : str) : list str :=
  match Py.split (Py.strip line) with
  | p0 :: _ => [sub_port p0]
  | [] => []
  end.

Definition hosts_from_hosts (line : str) : list str :=
  let line := Py.strip line in
  if negb (Py.startswith line (py "#")) then
    let parts := Py.split line in
    match parts with p0 :: _ => [p0] | _ => [] end
    ++ match parts with _ :: p1 :: _ => [p1] | _ => [] end
    ++ match parts with _ :: _ :: p2 :: _ => [p2] | _ => [] end
  else [].

(** *** Host aggregation *)

Definition iter_known_hosts (env : environment) : outcome (list str) :=
  a ← parts_yielder (lines_from_file env (py "~/.ssh/config"))
        hosts_from_config_lines;
  b ← parts_yielder (lines_from_file env (py "~/.ssh/known_hosts"))
        hosts_from_known_hosts;
  c ← parts_yielder (lines_from_file env (py "/etc/ssh/ssh_known_hosts"))
        hosts_from_known_hosts;
  d ← parts_yielder (lines_from_file env (py "/etc/hosts"))
        hosts_from_hosts;
  e ← parts_yielder (lines_from_command env [py "getent"; py "hosts"])
        hosts_from_hosts;
  Ret (a ++ b ++ c ++ d ++ e).

(** The test of the [filter] in [known_hosts]. *)
Definition plain_host (x : str) : bool :=
  negb (Py.contains x 0x2A) && negb (Py.contains x 0x5B).

(** [tuple(sorted(filter(..., set(tokens))))]; the set is a [gset], whose
order of enumeration is as arbitrary as that of a Python set. *)
Definition sorted_hosts (tokens : list str) : list str :=
  Py.sorted (List.filter plain_host
               (elements (list_to_set tokens : gset str))).

(** [run_once] keeps the value of the first call that returns; a function
of the environment gives that value at every call. *)
Definition known_hosts (env : environment) : outcome (list str) :=
  tokens ← iter_known_hosts env; Ret (sorted_hosts tokens).

(** *** The option table, parsed from the usage message of ssh *)

(** Lines 88 to 92: the inner loop, which moves [epos] to the bracket
    that closes the group opened at [pos]. *)
Fixpoint close_group (fuel : nat) (raw : str) (epos num : Z) : outcome Z :=
  match fuel with
  | O => OutOfFuel
  | S fuel =>
      if 0 <? num then
        let epos := epos + 1 in
        c ← index raw epos;
        if negb (Py.contains (py "[]") c) then close_group fuel raw epos num
        else close_group fuel raw epos
               (num + (if (c =? 0x5B)%N then 1 else -1))
      else Ret epos
  end.

(** [ans.update(dict.fromkeys(keys, ''))] *)
Definition update_fromkeys (ans : gmap str str) (keys : str)
  : gmap str str :=
  foldl (fun d c => <[ [c] := py "" ]> d) ans keys.

(** Lines 95 to 101: what one group [q] adds to the table. *)
Definition store_group (q : str) (ans : gmap str str)
  : outcome (gmap str str) :=
  if (Py.len q <? 2) || negb (bool_decide (Py.getitem q 0 = Some 0x2D%N))
  then Ret ans
  else if Py.contains q 0x20 then
    match Py.split_once q 0x20 with
    | [opt; desc] => Ret (<[ Py.slice_from opt 1 := desc ]> ans)
    | _ => Raise ValueError
    end
  else Ret (update_fromkeys ans (Py.slice_from q 1)).

(** Lines 82 to 101: the outer loop. *)
Fixpoint scan_groups (fuel : nat) (raw : str) (pos : Z)
    (ans : gmap str str) : outcome (gmap str str) :=
  match fuel with
  | O => OutOfFuel
  | S fuel =>
      let pos := Py.find raw (py "[") pos in
      if pos <? 0 then Ret ans
      else
        epos ← close_group (S (length raw)) raw pos 1;
        let q := Py.slice raw (pos + 1) epos in
        let pos := epos in
        ans ← store_group q ans;
        scan_groups fuel raw pos ans
  end.

(** Lines 80 to 102: the table that the text [raw] gives. *)
Definition parse_usage (raw : str) : outcome (gmap str str) :=
  scan_groups (S (length raw)) raw 0 ∅.

(** Lines 77 to 79, then the scan; under [run_once] as [known_hosts] is. *)
Definition ssh_options (env : environment) : outcome (gmap str str) :=
  match popen_stderr env [py "ssh"] with
  | None => Raise OSError
  | Some bytes =>
      match Utf8.decode bytes with
      | None => Raise UnicodeDecodeError
      | Some raw => parse_usage raw
      end
  end.

(** *** The static table of option descriptions *)

Definition option_help_text : string := "
-4  -- force ssh to use IPv4 addresses only
-6  -- force ssh to use IPv6 addresses only
-a  -- disable forwarding of authentication agent connection
-A  -- enable forwarding of the authentication agent connection
-B  -- bind to specified interface before attempting to connect
-b  -- specify interface to transmit on
-C  -- compress data
-c  -- select encryption cipher
-D  -- specify a dynamic port forwarding
-E  -- append log output to file instead of stderr
-e  -- set escape character
-f  -- go to background
-F  -- specify alternate config file
-g  -- allow remote hosts to connect to local forwarded ports
-G  -- output configuration and exit
-i  -- select identity file
-I  -- specify smartcard device
-J  -- connect via a jump host
-k  -- disable forwarding of GSSAPI credentials
-K  -- enable GSSAPI-based authentication and forwarding
-L  -- specify local port forwarding
-l  -- specify login name
-M  -- master mode for connection sharing
-m  -- specify mac algorithms
-N  -- don't execute a remote command
-n  -- redirect stdin from /dev/null
-O  -- control an active connection multiplexing master process
-o  -- specify extra options
-p  -- specify port on remote host
-P  -- use non privileged port
-Q  -- query parameters
-q  -- quiet operation
-R  -- specify remote port forwarding
-s  -- invoke subsystem
-S  -- specify location of control socket for connection sharing
-T  -- disable pseudo-tty allocation
-t  -- force pseudo-tty allocation
-V  -- show version number
-v  -- verbose mode (multiple increase verbosity, up to 3)
-W  -- forward standard input and output to host
-w  -- request tunnel device forwarding
-x  -- disable X11 forwarding
-X  -- enable (untrusted) X11 forwarding
-Y  -- enable trusted X11 forwarding
-y  -- send log info via syslog instead of stderr
".

(** Lines 156 to 160: the loop over the lines of the text. *)
Fixpoint help_lines (lines : list str) (ans : gmap str str)
  : outcome (gmap str str) :=
  match lines with
  | [] => Ret ans
  | line :: lines =>
      let line := Py.strip line in
      match line with
      | [] => help_lines lines ans
      | _ =>
          let parts := Py.split_max 2 line in
          k ← index parts 0;
          v ← index parts 2;
          help_lines lines (<[ k := v ]> ans)
      end
  end.

Definition option_help_map : outcome (gmap str str) :=
  help_lines (Py.splitlines (py option_help_text)) ∅.

(** *** Producers of candidates *)

Definition set_group (ans : Completions) (name : str)
    (result : gmap str str) : Completions :=
  {| match_groups := <[ name := result ]> (match_groups ans) |}.

Definition complete_arg (ans : Completions) (option_flag prefix : str)
  : outcome Completions :=
  Ret ans.

Definition complete_destination (env : environment) (ans : Completions)
    (prefix : str) : outcome Completions :=
  hosts ← known_hosts env;
  let result :=
    foldl (fun d k => <[ k := py "" ]> d) (∅ : gmap str str)
      (List.filter (fun k => Py.startswith k prefix) hosts) in
  Ret (set_group ans (py "remote host name") result).

Definition complete_option (ans : Completions) (prefix : str)
  : outcome Completions :=
  hm ← option_help_map;
  if Py.len prefix <=? 1 then
    let result :=
      filter (fun kv => Py.startswith kv.1 prefix = true) hm in
    Ret (set_group ans (py "option") result)
  else Ret (set_group ans (py "option") {[ prefix := py "" ]}).

(** *** The dispatcher *)

(** [options.get(key)], taken as a condition. *)
Definition takes_arg (options : gmap str str) (key : str) : bool :=
  match options !! key with
  | Some (_ :: _) => true
  | _ => false
  end.

(** Lines 186 to 198: the types given to [words], and [expecting_arg]
    when the loop is left. *)
Fixpoint classify (options : gmap str str) (expecting_arg : bool)
    (words : list str) : list str * bool :=
  match words with
  | [] => ([], expecting_arg)
  | word :: rest =>
      if expecting_arg then
        let '(types, e) := classify options false rest in
        (py "arg" :: types, e)
      else if Py.startswith word (py "-") then
        let expecting :=
          (Py.len word =? 2)
          && match Py.getitem word 1 with
             | Some c => takes_arg options [c]
             | None => false
             end in
        let '(types, e) := classify options expecting rest in
        (py "option" :: types, e)
      else (py "destination" :: List.map (fun _ => py "") rest, false)
  end.

Definition complete (env : environment) (ans : Completions)
    (words : list str) (new_word : bool) : outcome Completions :=
  options ← ssh_options env;
  let '(types, expecting_arg) := classify options false words in
  if new_word then
    if negb (bool_decide (words = [])) && expecting_arg then
      w ← index words (-1); complete_arg ans w (py "")
    else complete_destination env ans (py "")
  else if negb (bool_decide (words = [])) then
    t ← index types (-1);
    if bool_decide (t = py "arg") && (1 <? Py.len words) then
      f ← index words (-2); w ← index words (-1); complete_arg ans f w
    else if bool_decide (t = py "destination") then
      w ← index words (-1); complete_destination env ans w
    else if bool_decide (t = py "option") then
      w ← index words (-1); complete_option ans w
    else Ret ans
  else Ret ans.

End Completion.

Example hosts_demo :
  hosts_from_hosts (py "1.2.3.4 foo bar baz") = [py "1.2.3.4"; py "foo"; py "bar"].
Proof. reflexivity. Qed.

Example sorted_hosts_demo :
  sorted_hosts [py "b"; py "a"; py "192.168.*.1"; py "b"; py "[host]:22"] = [py "a"; py "b"].
Proof. vm_compute. reflexivity. Qed.

Example help_demo : exists hm, option_help_map = Ret hm /\ size hm = 45%nat /\ hm !! py "-N" = Some (py "don't execute a remote command").
Proof. eexists. split; [vm_compute; reflexivity|]. split; vm_compute; reflexivity. Qed.

(** ** Environments used in the examples *)

(** No file can be opened and [getent] cannot be run; running ssh gives
    [stderr]. *)
Definition bare_env (stderr : option (list byte)) : environment :=
  {| open_file := fun _ => Unopenable;
     check_output := fun _ => None;
     popen_stderr := fun _ => stderr |}.

(** The decimal digits of ASCII, the least that [\d] matches. *)
Definition ascii_digit (c : N) : bool := ((0x30 <=? c) && (c <=? 0x39))%N.

Definition no_groups : Completions := {| match_groups := ∅ |}.

(** ** Termination of the scan of the usage message *)

Lemma index_Ret {A} (s : list A) i x :
  index s i = Ret x ->
  0 <= i -> i < Py.len s /\ nth_error s (Z.to_nat i) = Some x.
Proof.
  unfold index, Py.getitem. intros H Hi.
  destruct (i <? 0) eqn:E; [lia|]. rewrite E in H. simpl in H.
  destruct (Py.len s <=? i) eqn:E'; [discriminate|].
  destruct (nth_error s (Z.to_nat i)) eqn:E''; [|discriminate].
  split; [lia|]. congruence.
Qed.

Lemma index_not_OutOfFuel {A} (s : list A) i : index s i <> OutOfFuel.
Proof. unfold index. destruct (Py.getitem s i); discriminate. Qed.

Lemma close_group_fuel fuel raw epos num :
  0 <= epos <= Py.len raw -> Py.len raw - epos < Z.of_nat fuel ->
  close_group fuel raw epos num <> OutOfFuel
  /\ forall e, close_group fuel raw epos num = Ret e ->
       epos <= e /\ (0 < num -> epos < e < Py.len raw).
Proof.
  revert epos num. induction fuel as [|fuel IH]; intros epos num Hpos Hfuel.
  - lia.
  - simpl. destruct (0 <? num) eqn:Hnum.
    + destruct (index raw (epos + 1)) as [c| |] eqn:Hc; simpl.
      * apply index_Ret in Hc as [Hlt _]; [|lia].
        assert (Hrec : forall n,
          close_group fuel raw (epos + 1) n <> OutOfFuel
          /\ forall e, close_group fuel raw (epos + 1) n = Ret e ->
               epos < e < Py.len raw).
        { intros n. destruct (IH (epos + 1) n) as [H1 H2]; [lia|lia|].
          split; [exact H1|]. intros e He.
          destruct (H2 e He) as [Hle Hin].
          destruct (Z.ltb_spec 0 n) as [Hn|Hn]; [specialize (Hin Hn); lia|].
          destruct fuel; simpl in He; [discriminate|].
          destruct (Z.ltb_spec 0 n); [lia|]. injection He as <-. lia. }
        destruct (negb _).
        -- destruct (Hrec num) as [H1 H2]. split; [exact H1|].
           intros e He. specialize (H2 e He). lia.
        -- destruct (Hrec (num + (if (c =? 91)%N then 1 else -1))) as [H1 H2].
           split; [exact H1|]. intros e He. specialize (H2 e He). lia.
      * split; [discriminate|]. discriminate.
      * exfalso. eapply index_not_OutOfFuel, Hc.
    + split; [discriminate|]. intros e [= <-]. split; [lia|].
      apply Z.ltb_ge in Hnum. lia.
Qed.

(** *** [find] of one character *)

Lemma startswith_char (s : str) c :
  Py.startswith s [c] = true <-> exists s', s = c :: s'.
Proof.
  destruct s as [|b s']; simpl.
  - split; [discriminate|]. intros [? ?]. discriminate.
  - destruct (N.eqb_spec c b) as [->|Hne]; simpl.
    + split; [eauto|reflexivity].
    + split; [discriminate|]. intros [? [= ? _]]. congruence.
Qed.

Lemma find_in_bounds (s : str) c i :
  0 <= i ->
  Py.find_in s [c] i = -1 \/ i <= Py.find_in s [c] i < i + Py.len s.
Proof.
  revert i. induction s as [|b s IH]; intros i Hi.
  - left. reflexivity.
  - cbn [Py.find_in]. destruct (Py.startswith (b :: s) [c]).
    + right. unfold Py.len. simpl length. lia.
    + destruct (IH (i + 1)) as [H|H]; [lia|left; exact H|right].
      unfold Py.len in *. simpl length. lia.
Qed.

Lemma find_bounds (s : str) c start :
  0 <= start ->
  Py.find s [c] start = -1 \/ start <= Py.find s [c] start < Py.len s.
Proof.
  intros Hs. unfold Py.find.
  destruct (Z.ltb_spec start 0); [lia|].
  destruct (Z.ltb_spec (Py.len s) start); [left; reflexivity|].
  destruct (find_in_bounds (drop (Z.to_nat start) s) c start Hs) as [E|E];
    [left; exact E|right].
  unfold Py.len in *. rewrite length_drop in E. lia.
Qed.

Lemma store_group_not_OutOfFuel q ans : store_group q ans <> OutOfFuel.
Proof.
  unfold store_group.
  repeat match goal with
         | |- context [if ?b then _ else _] => destruct b
         | |- context [match ?l with [] => _ | _ :: _ => _ end] => destruct l
         end; discriminate.
Qed.

Lemma scan_groups_fuel fuel raw pos ans :
  0 <= pos -> Z.max 0 (Py.len raw - pos) < Z.of_nat fuel ->
  scan_groups fuel raw pos ans <> OutOfFuel.
Proof.
  revert pos ans. induction fuel as [|fuel IH]; intros pos ans Hpos Hfuel.
  - lia.
  - cbn [scan_groups]. change (py "[") with [0x5B%N].
    destruct (find_bounds raw 0x5B%N pos Hpos) as [E|E].
    + rewrite E. simpl. discriminate.
    + destruct (Z.ltb_spec (Py.find raw [0x5B%N] pos) 0); [lia|].
      set (p := Py.find raw [0x5B%N] pos) in *.
      destruct (close_group_fuel (S (length raw)) raw p 1) as [H1 H2];
        [lia|unfold Py.len; lia|].
      destruct (close_group (S (length raw)) raw p 1) as [e| |] eqn:He;
        [|discriminate|congruence].
      destruct (H2 e eq_refl) as [_ Hin]. specialize (Hin ltac:(lia)).
      cbn [mbind outcome_bind].
      destruct (store_group (Py.slice raw (p + 1) e) ans) as [a| |] eqn:Hq;
        [|discriminate|exfalso; eapply store_group_not_OutOfFuel, Hq].
      apply IH; lia.
Qed.

(** The scan of the usage message always ends: the fuel that
    [parse_usage] gives its loops is never used up. *)
Lemma parse_usage_terminates raw : parse_usage raw <> OutOfFuel.
Proof.
  unfold parse_usage. apply scan_groups_fuel; [lia|].
  unfold Py.len. lia.
Qed.

(** ** The option table of a usage message *)

Definition usage_example : string := "usage: ssh [-46AaC] [-b bind_address]".

(** C3: the usage message "usage: ssh [-46AaC] [-b bind_address]" gives
    exactly the table that maps 4, 6, A, a and C to the empty string and b
    to "bind_address", both for the parse of the text and for
    [ssh_options] when ssh writes these bytes to its standard error. *)
Theorem ssh_options_usage_example :
  let table : gmap str str :=
    {[ py "4" := py ""; py "6" := py ""; py "A" := py ""; py "a" := py "";
       py "C" := py ""; py "b" := py "bind_address" ]} in
  parse_usage (py usage_example) = Ret table
  /\ ssh_options (bare_env (Some (Utf8.ascii_bytes usage_example)))
     = Ret table.
Proof. split; vm_compute; reflexivity. Qed.

(** ** Exceptions that leave [complete] *)

(** C1: [complete] raises to its caller when ssh cannot be run
    ([OSError] from [Popen]), when its standard error is not UTF-8
    ([UnicodeDecodeError]), and when its usage message has a bracket that
    is never closed ([IndexError]); so does [known_hosts] when a file that
    opens cannot be read. *)
Theorem complete_raises (ans : Completions) (words : list str) (new_word : bool) :
  complete ascii_digit (bare_env None) ans words new_word = Raise OSError
  /\ complete ascii_digit (bare_env (Some [xff]%byte)) ans words new_word
     = Raise UnicodeDecodeError
  /\ complete ascii_digit (bare_env (Some (Utf8.ascii_bytes "usage: ssh [-4")))
       ans words new_word = Raise IndexError
  /\ complete ascii_digit
       {| open_file := fun _ => Unreadable UnicodeDecodeError;
          check_output := fun _ => None;
          popen_stderr := fun _ => Some (Utf8.ascii_bytes usage_example) |}
       ans [] true = Raise UnicodeDecodeError.
Proof. repeat split; reflexivity. Qed.

Lemma find_in_present (s : str) c i :
  c ∈ s -> 0 <= i -> Py.find_in s [c] i <> -1.
Proof.
  revert i. induction s as [|b s IH]; intros i Hin Hi; [inversion Hin|].
  simpl. destruct (N.eqb_spec c b) as [->|Hne]; simpl; [lia|].
  apply IH; [|lia]. inversion Hin; subst; [congruence|assumption].
Qed.

(** With no closing bracket in the text, the inner loop runs off its
    end. *)
Lemma close_group_unclosed fuel (raw : str) epos num :
  (0x5D%N ∉ raw) -> 0 < num -> 0 <= epos ->
  Z.max 1 (Py.len raw - epos) <= Z.of_nat fuel ->
  close_group fuel raw epos num = Raise IndexError.
Proof.
  intros Hno. revert epos num.
  induction fuel as [|fuel IH]; intros epos num Hnum Hpos Hfuel; [lia|].
  cbn [close_group]. destruct (Z.ltb_spec 0 num); [|lia].
  destruct (index raw (epos + 1)) as [c| |] eqn:Hc; cbn [mbind outcome_bind].
  - destruct (index_Ret raw _ c Hc ltac:(lia)) as [Hlt Hnth].
    apply nth_error_In, list_elem_of_In in Hnth.
    destruct (Py.contains (py "[]") c) eqn:Hb; cbn [negb];
      [|apply IH; lia].
    destruct (N.eqb_spec c 0x5B%N) as [_|Hne]; [apply IH; lia|].
    assert (c = 0x5D%N) as ->; [|contradiction].
    unfold Py.contains in Hb. simpl in Hb.
    destruct (N.eqb_spec c 91); [contradiction|].
    destruct (N.eqb_spec c 93); [assumption|discriminate].
  - unfold index in Hc. destruct (Py.getitem raw (epos + 1));
      [discriminate|]. injection Hc as <-. reflexivity.
  - exfalso. eapply index_not_OutOfFuel, Hc.
Qed.

(** X5: every text with an opening bracket and no closing one makes the
    scan raise [IndexError]. *)
Lemma parse_usage_unclosed (raw : str) :
  (0x5B%N ∈ raw) -> (0x5D%N ∉ raw) -> parse_usage raw = Raise IndexError.
Proof.
  intros Hopen Hno. unfold parse_usage. cbn [scan_groups].
  change (py "[") with [0x5B%N].
  destruct (find_bounds raw 0x5B%N 0 ltac:(lia)) as [E|E].
  - exfalso. revert E. unfold Py.find. simpl.
    destruct (Z.ltb_spec (Py.len raw) 0); [unfold Py.len in *; lia|].
    apply find_in_present; [exact Hopen|lia].
  - destruct (Z.ltb_spec (Py.find raw [0x5B%N] 0) 0); [lia|].
    rewrite close_group_unclosed; [reflexivity|exact Hno|lia|lia|].
    unfold Py.len in *. lia.
Qed.

(** C2: on the text "[", whose bracket is never closed, the scan reads
    [raw[1]], past the end of the text, and [IndexError] leaves
    [ssh_options]; the same holds for a usage message cut short. *)
Theorem parse_usage_unbalanced :
  index (py "[") 1 = Raise IndexError
  /\ close_group 2 (py "[") 0 1 = Raise IndexError
  /\ parse_usage (py "[") = Raise IndexError
  /\ parse_usage (py "usage: ssh [-46AaC] [-b bind_address") = Raise IndexError.
Proof. repeat split; vm_compute; reflexivity. Qed.

(** ** The dispatcher *)

Lemma option_help_map_Ret : exists hm, option_help_map = Ret hm.
Proof. eexists. vm_compute. reflexivity. Qed.

Lemma takes_arg_true options key v :
  options !! key = Some v -> v <> py "" -> takes_arg options key = true.
Proof.
  intros H Hv. unfold takes_arg. rewrite H. destruct v; [|reflexivity].
  exfalso. apply Hv. reflexivity.
Qed.

(** C7: with the single word "-p", a new word starting, and a table that
    maps p to a non-empty value, [complete] calls [complete_arg] for "-p",
    which writes nothing: the collector is returned as it was. *)
Theorem complete_new_word_after_flag isdigit env options ans v :
  ssh_options env = Ret options ->
  options !! py "p" = Some v -> v <> py "" ->
  classify options false [py "-p"] = ([py "option"], true)
  /\ complete isdigit env ans [py "-p"] true
     = complete_arg ans (py "-p") (py "")
  /\ complete isdigit env ans [py "-p"] true = Ret ans.
Proof.
  intros Hopt Hp Hv.
  assert (Hc : classify options false [py "-p"] = ([py "option"], true)).
  { pose proof (takes_arg_true _ _ _ Hp Hv) as Ht.
    cbn -[takes_arg] in *.
    change (Py.getitem [45%N; 112%N] 1) with (Some 112%N). cbv iota beta.
    rewrite Ht. reflexivity. }
  split; [exact Hc|].
  unfold complete. rewrite Hopt. cbn [mbind outcome_bind]. rewrite Hc.
  split; reflexivity.
Qed.

Lemma complete_new_word_after_flag_witness :
  let env := bare_env (Some (Utf8.ascii_bytes "usage: ssh [-4] [-p port]")) in
  classify {[ py "4" := py ""; py "p" := py "port" ]} false [py "-p"]
  = ([py "option"], true)
  /\ complete ascii_digit env no_groups [py "-p"] true
     = complete_arg no_groups (py "-p") (py "")
  /\ complete ascii_digit env no_groups [py "-p"] true = Ret no_groups.
Proof.
  apply (complete_new_word_after_flag ascii_digit _
           {[ py "4" := py ""; py "p" := py "port" ]} no_groups (py "port")).
  - vm_compute. reflexivity.
  - vm_compute. reflexivity.
  - discriminate.
Defined.

(** C10: for a dash followed by exactly one character, [complete_option]
    sets the "option" group to the typed word alone, mapped to the empty
    string, whatever the table of descriptions holds for it. *)
Theorem complete_option_single_flag (ans : Completions) (c : N) :
  let prefix := 0x2D%N :: [c] in
  complete_option ans prefix
  = Ret (set_group ans (py "option") {[ prefix := py "" ]})
  /\ forall ans', complete_option ans prefix = Ret ans' ->
       match_groups ans' !! py "option" = Some {[ prefix := py "" ]}
       /\ forall name, name <> py "option" ->
            match_groups ans' !! name = match_groups ans !! name.
Proof.
  intros prefix. unfold complete_option.
  destruct option_help_map_Ret as [hm ->]. cbn [mbind outcome_bind].
  change (Py.len prefix <=? 1) with false. cbv iota.
  split; [reflexivity|]. intros ans' [= <-]. unfold set_group. simpl.
  split; [apply lookup_insert_eq|].
  intros name Hne. apply lookup_insert_ne. congruence.
Qed.

(** A dict filled by [d[key(x)] = v] for the [x] of a list in turn. *)
Lemma lookup_foldl_insert {A} (key : A -> str) (v : str) (l : list A)
    (m : gmap str str) (k : str) :
  foldl (fun d x => <[ key x := v ]> d) m l !! k
  = if decide (k ∈ List.map key l) then Some v else m !! k.
Proof.
  revert m. induction l as [|x l IH]; intros m; cbn [foldl List.map].
  - rewrite decide_False; [reflexivity|]. intros H. inversion H.
  - rewrite IH. destruct (decide (k ∈ List.map key l)) as [H|H].
    + rewrite decide_True; [reflexivity|]. right. exact H.
    + destruct (decide (k = key x)) as [->|Hne].
      * rewrite lookup_insert_eq, decide_True; [reflexivity|]. left.
      * rewrite lookup_insert_ne by congruence.
        rewrite decide_False; [reflexivity|].
        intros Hin. inversion Hin; subst; tauto.
Qed.

(** An environment with a hosts file, and an ssh that takes [-p port]. *)
Definition demo_env : environment :=
  {| open_file := fun path =>
       if bool_decide (path = py "/etc/hosts")
       then Readable [py "127.0.0.1 localhost
"; py "10.0.0.7 host7 hostess
"; py "10.0.0.8 other
"]
       else Unopenable;
     check_output := fun _ => None;
     popen_stderr := fun _ =>
       Some (Utf8.ascii_bytes "usage: ssh [-46AaC] [-p port] destination") |}.

Definition demo_options : gmap str str :=
  {[ py "4" := py ""; py "6" := py ""; py "A" := py ""; py "a" := py "";
     py "C" := py ""; py "p" := py "port" ]}.

Definition demo_hosts : list str :=
  [py "10.0.0.7"; py "10.0.0.8"; py "127.0.0.1"; py "host7"; py "hostess";
   py "localhost"; py "other"].

Example demo_env_ssh_options : ssh_options demo_env = Ret demo_options.
Proof. vm_compute. reflexivity. Qed.

Example demo_env_known_hosts : known_hosts ascii_digit demo_env = Ret demo_hosts.
Proof. vm_compute. reflexivity. Qed.

(** What [ans.match_groups[name] = result] leaves in the collector. *)
Lemma set_group_lookup ans name result :
  match_groups (set_group ans name result) !! name = Some result
  /\ forall other, other <> name ->
       match_groups (set_group ans name result) !! other
       = match_groups ans !! other.
Proof.
  unfold set_group. simpl. split; [apply lookup_insert_eq|].
  intros other Hne. apply lookup_insert_ne. congruence.
Qed.

(** C6: for the words "-p", "2222", "host" with no new word starting, and
    a table that maps p to a non-empty value, the words are classified as
    option, arg and destination, and [complete] returns the collector with
    the group "remote host name" holding exactly the known hosts that
    start with "host", each mapped to the empty string, and with its other
    groups as they were. *)
Theorem complete_destination_example isdigit env options hosts ans v :
  ssh_options env = Ret options ->
  options !! py "p" = Some v -> v <> py "" ->
  known_hosts isdigit env = Ret hosts ->
  let words := [py "-p"; py "2222"; py "host"] in
  classify options false words
  = ([py "option"; py "arg"; py "destination"], false)
  /\ complete isdigit env ans words false
     = complete_destination isdigit env ans (py "host")
  /\ exists ans' result,
       complete isdigit env ans words false = Ret ans'
       /\ match_groups ans' !! py "remote host name" = Some result
       /\ (forall name, name <> py "remote host name" ->
             match_groups ans' !! name = match_groups ans !! name)
       /\ (forall k, is_Some (result !! k)
                     <-> k ∈ hosts /\ Py.startswith k (py "host") = true)
       /\ (forall k d, result !! k = Some d -> d = py "").
Proof.
  intros Hopt Hp Hv Hhosts words.
  assert (Hc : classify options false words
               = ([py "option"; py "arg"; py "destination"], false)).
  { pose proof (takes_arg_true _ _ _ Hp Hv) as Ht.
    cbn -[takes_arg] in *.
    change (Py.getitem [45%N; 112%N] 1) with (Some 112%N). cbv iota beta.
    rewrite Ht. reflexivity. }
  assert (Hd : complete isdigit env ans words false
               = complete_destination isdigit env ans (py "host")).
  { unfold complete. rewrite Hopt. cbn [mbind outcome_bind]. rewrite Hc.
    reflexivity. }
  split; [exact Hc|]. split; [exact Hd|].
  rewrite Hd. unfold complete_destination. rewrite Hhosts.
  cbn [mbind outcome_bind]. eexists _, _. split; [reflexivity|].
  split; [apply set_group_lookup|]. split; [apply set_group_lookup|]. split.
  - intros k. rewrite (lookup_foldl_insert (fun k => k)), List.map_id.
    destruct (decide _) as [H|H]; rewrite ?lookup_empty;
      rewrite list_elem_of_In, filter_In, <- list_elem_of_In in H.
    + split; [intros _; exact H|eauto].
    + split; [intros [? ?]; discriminate|tauto].
  - intros k d. rewrite (lookup_foldl_insert (fun k => k)).
    destruct (decide _); rewrite ?lookup_empty; congruence.
Qed.

Lemma complete_destination_example_witness :
  let words := [py "-p"; py "2222"; py "host"] in
  classify demo_options false words
  = ([py "option"; py "arg"; py "destination"], false)
  /\ complete ascii_digit demo_env no_groups words false
     = complete_destination ascii_digit demo_env no_groups (py "host")
  /\ exists ans' result,
       complete ascii_digit demo_env no_groups words false = Ret ans'
       /\ match_groups ans' !! py "remote host name" = Some result
       /\ (forall name, name <> py "remote host name" ->
             match_groups ans' !! name = match_groups no_groups !! name)
       /\ (forall k, is_Some (result !! k)
                     <-> k ∈ demo_hosts /\ Py.startswith k (py "host") = true)
       /\ (forall k d, result !! k = Some d -> d = py "").
Proof.
  apply (complete_destination_example ascii_digit demo_env demo_options
           demo_hosts no_groups (py "port")).
  - vm_compute. reflexivity.
  - vm_compute. reflexivity.
  - discriminate.
  - vm_compute. reflexivity.
Defined.

Example complete_destination_demo :
  complete ascii_digit demo_env no_groups [py "-p"; py "2222"; py "host"] false
  = Ret {| match_groups :=
             {[ py "remote host name" :=
                  {[ py "host7" := py ""; py "hostess" := py "" ]} ]} |}.
Proof. vm_compute. reflexivity. Qed.

(** ** Fields of a line *)

Lemma lstrip_cases (s : str) :
  Py.lstrip s = []
  \/ exists c s', Py.lstrip s = c :: s' /\ Py.isspace c = false.
Proof.
  induction s as [|c s IH]; simpl; [left; reflexivity|].
  destruct (Py.isspace c) eqn:E; [exact IH|right; eauto].
Qed.

Lemma lstrip_all_space (s : str) :
  Forall (fun c => Py.isspace c = true) s -> Py.lstrip s = [].
Proof.
  induction 1 as [|c s Hc _ IH]; simpl; [reflexivity|]. rewrite Hc. exact IH.
Qed.

Lemma strip_all_space (s : str) :
  Forall (fun c => Py.isspace c = true) s -> Py.strip s = [].
Proof.
  intros H. unfold Py.strip, Py.rstrip. rewrite (lstrip_all_space s H).
  reflexivity.
Qed.

(** A string left by [strip] is empty or ends with a character that is
    not whitespace. *)
Lemma strip_cases (s : str) :
  Py.strip s = []
  \/ exists c, c ∈ Py.strip s /\ Py.isspace c = false.
Proof.
  unfold Py.strip, Py.rstrip.
  destruct (lstrip_cases (rev (Py.lstrip s))) as [->|(c & s' & -> & Hc)].
  - left. reflexivity.
  - right. exists c. split; [|exact Hc].
    apply list_elem_of_In, in_rev. rewrite rev_involutive. left. reflexivity.
Qed.

Lemma split_from_nonempty (field s : str) :
  field <> [] \/ (exists c, c ∈ s /\ Py.isspace c = false) ->
  Py.split_from field s <> [].
Proof.
  revert field. induction s as [|c s IH]; intros field H; simpl.
  - destruct H as [H|(c & Hc & _)]; [|inversion Hc].
    destruct field; [congruence|discriminate].
  - destruct (Py.isspace c) eqn:E.
    + destruct field as [|f field]; [|discriminate].
      apply IH. right. destruct H as [H|(d & Hd & Hsp)]; [congruence|].
      exists d. split; [|exact Hsp].
      inversion Hd; subst; [congruence|assumption].
    + apply IH. left. destruct field; discriminate.
Qed.

(** The fields that [split] gives hold no whitespace. *)
Lemma split_from_fields (field s : str) :
  Forall (fun c => Py.isspace c = false) field ->
  Forall (Forall (fun c => Py.isspace c = false)) (Py.split_from field s).
Proof.
  revert field. induction s as [|c s IH]; intros field H; simpl.
  - destruct field; [constructor|]. constructor; [exact H|constructor].
  - destruct (Py.isspace c) eqn:E.
    + destruct field as [|f field]; [apply IH; constructor|].
      constructor; [exact H|apply IH; constructor].
    + apply IH. apply Forall_app. split; [exact H|].
      constructor; [exact E|constructor].
Qed.

Lemma split_fields (s : str) :
  Forall (Forall (fun c => Py.isspace c = false)) (Py.split s).
Proof. apply split_from_fields. constructor. Qed.

(** ** The filter of the hosts file *)

(** C9: [hosts_from_hosts] yields nothing when the stripped line is empty
    or starts with '#'; otherwise the line has a first field and the
    filter yields the first three fields at most, in order. *)
Theorem hosts_from_hosts_spec (line : str) :
  let trimmed := Py.strip line in
  let parts := Py.split trimmed in
  (Py.startswith trimmed (py "#") = true \/ trimmed = [] ->
   hosts_from_hosts line = [])
  /\ (Py.startswith trimmed (py "#") = false -> trimmed <> [] ->
      parts <> []
      /\ hosts_from_hosts line = firstn 3 parts
      /\ hosts_from_hosts line
         = option_list (parts !! 0%nat) ++ option_list (parts !! 1%nat)
           ++ option_list (parts !! 2%nat))
  /\ (length (hosts_from_hosts line) <= 3)%nat.
Proof.
  intros trimmed parts. unfold hosts_from_hosts. fold trimmed. fold parts.
  split; [|split].
  - intros [H|H]; [rewrite H; reflexivity|].
    subst parts. rewrite H. reflexivity.
  - intros H Hne. rewrite H. simpl. split; [|split].
    + subst parts. apply split_from_nonempty. right.
      destruct (strip_cases line) as [E|E]; [contradiction|exact E].
    + destruct parts as [|a [|b [|c r]]]; reflexivity.
    + destruct parts as [|a [|b [|c r]]]; reflexivity.
  - destruct (negb _); [|simpl; lia].
    destruct parts as [|a [|b [|c r]]]; simpl; lia.
Qed.

Lemma hosts_from_hosts_spec_witness :
  hosts_from_hosts (py "# 1.2.3.4 foo") = []
  /\ hosts_from_hosts (py "   ") = []
  /\ hosts_from_hosts (py " 1.2.3.4  foo bar baz
") = [py "1.2.3.4"; py "foo"; py "bar"]
  /\ hosts_from_hosts (py "1.2.3.4") = [py "1.2.3.4"].
Proof.
  split; [|split; [|split]].
  - destruct (hosts_from_hosts_spec (py "# 1.2.3.4 foo")) as [H _].
    apply H. left. reflexivity.
  - destruct (hosts_from_hosts_spec (py "   ")) as [H _].
    apply H. right. reflexivity.
  - destruct (hosts_from_hosts_spec (py " 1.2.3.4  foo bar baz
")) as (_ & H & _).
    destruct H as (_ & H & _); [reflexivity|discriminate|exact H].
  - destruct (hosts_from_hosts_spec (py "1.2.3.4")) as (_ & H & _).
    destruct H as (_ & H & _); [reflexivity|discriminate|exact H].
Defined.

(** ** The filter of the known_hosts files *)

Section KnownHostsFilter.

Variable isdigit : N -> bool.

(** [p] is [h] followed by a colon and one or more digits. *)
Definition port_suffix (p h : str) : Prop :=
  exists ds, ds <> [] /\ Forall (fun c => isdigit c = true) ds
             /\ p = h ++ 0x3A%N :: ds.

Lemma at_end_no_newline (s : str) :
  0x0A%N ∉ s -> at_end s = true -> s = [].
Proof.
  destruct s as [|c [|d s]]; simpl; intros Hnl H; try discriminate.
  - reflexivity.
  - apply N.eqb_eq in H. subst. exfalso. apply Hnl. left.
Qed.

Lemma digits_to_end_Some (s : str) k :
  0x0A%N ∉ s -> digits_to_end isdigit s = Some k ->
  k = length s /\ s <> [] /\ Forall (fun c => isdigit c = true) s.
Proof.
  revert k. induction s as [|c s IH]; intros k Hnl; simpl; [discriminate|].
  assert (Hnl' : 0x0A%N ∉ s) by (intros H; apply Hnl; right; exact H).
  destruct (isdigit c) eqn:Hc; [|discriminate].
  destruct (digits_to_end isdigit s) as [k'|] eqn:Hk.
  - intros [= <-]. destruct (IH k' Hnl' eq_refl) as (-> & _ & Hall).
    split; [reflexivity|]. split; [discriminate|]. constructor; assumption.
  - destruct (at_end s) eqn:He; [|discriminate]. intros [= <-].
    rewrite (at_end_no_newline s Hnl' He).
    split; [reflexivity|]. split; [discriminate|].
    constructor; [exact Hc|constructor].
Qed.

Lemma digits_to_end_all (s : str) :
  s <> [] -> Forall (fun c => isdigit c = true) s ->
  digits_to_end isdigit s = Some (length s).
Proof.
  induction s as [|c s IH]; intros Hne Hall; [congruence|].
  inversion Hall as [|? ? Hc Hs]; subst. simpl. rewrite Hc.
  destruct s as [|d s]; [reflexivity|].
  rewrite IH; [reflexivity|discriminate|exact Hs].
Qed.

Lemma sub_port_from_all (s : str) k :
  (length s <= k)%nat -> sub_port_from isdigit k s = [].
Proof.
  revert k. induction s as [|c s IH]; intros k Hk; [reflexivity|].
  simpl in *. destruct k as [|k]; [lia|]. apply IH. lia.
Qed.

Hypothesis colon_not_digit : isdigit 0x3A%N = false.

(** A field that ends with a colon and digits loses them, and no more. *)
Lemma sub_port_strips (h ds : str) :
  0x0A%N ∉ h ++ 0x3A%N :: ds ->
  ds <> [] -> Forall (fun c => isdigit c = true) ds ->
  sub_port isdigit (h ++ 0x3A%N :: ds) = h.
Proof.
  intros Hnl Hne Hall. unfold sub_port.
  induction h as [|c h IH]; simpl.
  - rewrite (digits_to_end_all ds Hne Hall).
    apply sub_port_from_all. lia.
  - assert (Hnl' : 0x0A%N ∉ h ++ 0x3A%N :: ds)
      by (intros H; apply Hnl; right; exact H).
    destruct (N.eqb_spec c 0x3A%N) as [->|_]; [|rewrite (IH Hnl'); reflexivity].
    destruct (digits_to_end isdigit (h ++ 0x3A%N :: ds)) as [k|] eqn:Hk;
      [|rewrite (IH Hnl'); reflexivity].
    destruct (digits_to_end_Some _ _ Hnl' Hk) as (_ & _ & Hd).
    apply Forall_app in Hd as [_ Hd]. inversion Hd; subst. congruence.
Qed.

(** A field is left as it is unless it ends with a colon and digits. *)
Lemma sub_port_cases (s : str) :
  0x0A%N ∉ s ->
  sub_port isdigit s = s \/ exists h, port_suffix s h.
Proof.
  unfold sub_port. induction s as [|c s IH]; intros Hnl; [left; reflexivity|].
  assert (Hnl' : 0x0A%N ∉ s) by (intros H; apply Hnl; right; exact H).
  assert (Hrec : c :: sub_port_from isdigit 0 s = c :: s
                  \/ exists h, port_suffix (c :: s) h).
  { destruct (IH Hnl') as [->|(h & ds & H1 & H2 & ->)]; [left; reflexivity|].
    right. exists (c :: h), ds. repeat split; assumption. }
  simpl. destruct (N.eqb_spec c 0x3A%N) as [->|_]; [|exact Hrec].
  destruct (digits_to_end isdigit s) as [k|] eqn:Hk; [|exact Hrec].
  destruct (digits_to_end_Some _ _ Hnl' Hk) as (_ & Hne & Hd).
  right. exists [], s. repeat split; assumption.
Qed.

Lemma newline_is_space (s : str) :
  Forall (fun c => Py.isspace c = false) s -> 0x0A%N ∉ s.
Proof.
  intros H Hin. rewrite Forall_forall in H. apply H in Hin. discriminate.
Qed.

(** C8: when the line has fields, [hosts_from_known_hosts] yields one
    token: the first field without its final colon and digits when it
    ends with a colon and one or more digits, and the first field itself
    otherwise; a line of whitespace only yields nothing. *)
Theorem hosts_from_known_hosts_spec (line : str) :
  (forall p0 rest, Py.split (Py.strip line) = p0 :: rest ->
     (forall h, port_suffix p0 h ->
        hosts_from_known_hosts isdigit line = [h])
     /\ ((forall h, ~ port_suffix p0 h) ->
         hosts_from_known_hosts isdigit line = [p0]))
  /\ (Py.split (Py.strip line) = [] ->
      hosts_from_known_hosts isdigit line = [])
  /\ (Forall (fun c => Py.isspace c = true) line ->
      hosts_from_known_hosts isdigit line = []).
Proof.
  unfold hosts_from_known_hosts. split; [|split].
  - intros p0 rest E. rewrite E.
    pose proof (split_fields (Py.strip line)) as Hf. rewrite E in Hf.
    inversion Hf as [|? ? Hp0 _]; subst.
    apply newline_is_space in Hp0. split.
    + intros h (ds & Hne & Hall & ->).
      rewrite (sub_port_strips h ds Hp0 Hne Hall). reflexivity.
    + intros Hno. destruct (sub_port_cases p0 Hp0) as [->|[h Hh]];
        [reflexivity|]. destruct (Hno h Hh).
  - intros ->. reflexivity.
  - intros H. rewrite (strip_all_space line H). reflexivity.
Qed.

End KnownHostsFilter.

Lemma hosts_from_known_hosts_spec_witness :
  hosts_from_known_hosts ascii_digit (py "example.com:2222 ssh-rsa AAAA
") = [py "example.com"].
Proof.
  destruct (hosts_from_known_hosts_spec ascii_digit eq_refl
              (py "example.com:2222 ssh-rsa AAAA
")) as [H _].
  destruct (H (py "example.com:2222") [py "ssh-rsa"; py "AAAA"] eq_refl)
    as [H1 _].
  apply H1. exists (py "2222"). split; [discriminate|].
  split; [|reflexivity]. repeat constructor.
Defined.

Example known_hosts_filter_demo :
  hosts_from_known_hosts ascii_digit (py "example.com ssh-rsa AAAA") = [py "example.com"]
  /\ hosts_from_known_hosts ascii_digit (py "[::1]:22,host:x ssh-rsa AAAA") = [py "[::1]:22,host:x"]
  /\ hosts_from_known_hosts ascii_digit (py "a:12:34") = [py "a:12"]
  /\ hosts_from_known_hosts ascii_digit (py "  ") = [].
Proof. repeat split; reflexivity. Qed.

(** ** The order of strings *)

Lemma leb_cons (x y : N) (a b : str) :
  Py.leb (x :: a) (y :: b) = true
  <-> (x < y)%N \/ (x = y /\ Py.leb a b = true).
Proof.
  simpl. destruct (N.ltb_spec x y) as [Hxy|Hxy].
  - split; [intros _; left; exact Hxy|reflexivity].
  - destruct (N.ltb_spec y x) as [Hyx|Hyx].
    + split; [discriminate|]. intros [H|[H _]]; lia.
    + split; [intros H; right; split; [lia|exact H]|].
      intros [H|[_ H]]; [lia|exact H].
Qed.

#[export] Instance le_total : Total Py.le.
Proof.
  intros a. unfold Py.le. induction a as [|x a IH]; intros [|y b].
  - left. reflexivity.
  - left. reflexivity.
  - right. reflexivity.
  - rewrite !leb_cons. destruct (N.lt_trichotomy x y) as [H|[H|H]].
    + left. left. exact H.
    + subst. destruct (IH b) as [E|E]; [left|right]; right; split;
        solve [reflexivity | exact E].
    + right. left. exact H.
Qed.

#[export] Instance le_trans : Transitive Py.le.
Proof.
  intros a. unfold Py.le. induction a as [|x a IH]; intros [|y b] [|z c];
    try reflexivity; try discriminate.
  rewrite !leb_cons. intros [H1|[-> H1]] [H2|[-> H2]].
  - left. lia.
  - left. exact H1.
  - left. exact H2.
  - right. split; [reflexivity|]. exact (IH b c H1 H2).
Qed.

#[export] Instance le_antisym : AntiSymm (=) Py.le.
Proof.
  intros a. unfold Py.le. induction a as [|x a IH]; intros [|y b];
    try reflexivity; try discriminate.
  rewrite !leb_cons. intros [H1|[-> H1]] [H2|[E H2]]; try lia.
  f_equal. exact (IH b H1 H2).
Qed.

Lemma contains_spec (s : str) (c : N) : Py.contains s c = true <-> c ∈ s.
Proof.
  unfold Py.contains. rewrite existsb_exists, list_elem_of_In. split.
  - intros (x & Hx & E). apply N.eqb_eq in E. subst. exact Hx.
  - intros H. exists c. split; [exact H|apply N.eqb_refl].
Qed.

Lemma plain_host_spec (x : str) :
  plain_host x = true <-> (0x2A%N ∉ x) /\ (0x5B%N ∉ x).
Proof.
  unfold plain_host. rewrite andb_true_iff, !negb_true_iff.
  rewrite <- !contains_spec.
  destruct (Py.contains x 42), (Py.contains x 91); split;
    intros [? ?]; split; congruence.
Qed.

(** ** The sequence of known hosts *)

Lemma sorted_hosts_elem (tokens : list str) (x : str) :
  x ∈ sorted_hosts tokens <-> x ∈ tokens /\ plain_host x = true.
Proof.
  unfold sorted_hosts, Py.sorted. rewrite merge_sort_Permutation.
  rewrite list_elem_of_In, filter_In, <- list_elem_of_In.
  rewrite elem_of_elements, elem_of_list_to_set. reflexivity.
Qed.

Lemma sorted_hosts_NoDup (tokens : list str) : NoDup (sorted_hosts tokens).
Proof.
  unfold sorted_hosts, Py.sorted. rewrite merge_sort_Permutation.
  apply NoDup_ListNoDup, List.NoDup_filter, NoDup_ListNoDup, NoDup_elements.
Qed.

Lemma sorted_hosts_sorted (tokens : list str) :
  StronglySorted Py.le (sorted_hosts tokens).
Proof. apply StronglySorted_merge_sort; apply _. Qed.

(** C5: whatever tokens the five sources yield, [known_hosts] returns a
    sequence without duplicates, without any string that holds '*' or '[',
    in ascending lexicographic order, and in which every yielded token
    free of '*' and '[' occurs. *)
Theorem known_hosts_spec isdigit env (tokens : list str) :
  iter_known_hosts isdigit env = Ret tokens ->
  exists hosts,
    known_hosts isdigit env = Ret hosts
    /\ NoDup hosts
    /\ (forall x, x ∈ hosts -> (0x2A%N ∉ x) /\ (0x5B%N ∉ x))
    /\ StronglySorted Py.le hosts
    /\ (forall t, t ∈ tokens -> 0x2A%N ∉ t -> 0x5B%N ∉ t -> t ∈ hosts).
Proof.
  intros Htok. exists (sorted_hosts tokens). unfold known_hosts.
  rewrite Htok. split; [reflexivity|].
  split; [apply sorted_hosts_NoDup|].
  split; [|split; [apply sorted_hosts_sorted|]].
  - intros x Hx. apply sorted_hosts_elem in Hx as [_ Hx].
    apply plain_host_spec, Hx.
  - intros t Ht H1 H2. apply sorted_hosts_elem. split; [exact Ht|].
    apply plain_host_spec. split; assumption.
Qed.

Definition demo_tokens : list str :=
  [py "127.0.0.1"; py "localhost"; py "10.0.0.7"; py "host7"; py "hostess";
   py "10.0.0.8"; py "other"].

Lemma known_hosts_spec_witness :
  exists hosts,
    known_hosts ascii_digit demo_env = Ret hosts
    /\ NoDup hosts
    /\ (forall x, x ∈ hosts -> (0x2A%N ∉ x) /\ (0x5B%N ∉ x))
    /\ StronglySorted Py.le hosts
    /\ (forall t, t ∈ demo_tokens -> 0x2A%N ∉ t -> 0x5B%N ∉ t -> t ∈ hosts).
Proof.
  apply (known_hosts_spec ascii_digit demo_env demo_tokens).
  vm_compute. reflexivity.
Defined.

(** ** The scan of a usage message that ends with a group *)

Lemma len_app {A} (a b : list A) : Py.len (a ++ b) = Py.len a + Py.len b.
Proof. unfold Py.len. rewrite length_app. lia. Qed.

Lemma len_nonneg {A} (a : list A) : 0 <= Py.len a.
Proof. unfold Py.len. lia. Qed.

Lemma getitem_nonneg {A} (s : list A) i :
  0 <= i ->
  Py.getitem s i
  = if Py.len s <=? i then None else nth_error s (Z.to_nat i).
Proof.
  intros Hi. unfold Py.getitem.
  destruct (Z.ltb_spec i 0); [lia|]. cbv beta zeta.
  destruct (Z.ltb_spec i 0); [lia|]. reflexivity.
Qed.

Lemma index_app_l {A} (s t : list A) i x :
  0 <= i -> index s i = Ret x -> index (s ++ t) i = Ret x.
Proof.
  intros Hi H. destruct (index_Ret s i x H Hi) as [Hlt Hn].
  unfold index. rewrite getitem_nonneg, len_app by exact Hi.
  pose proof (len_nonneg t).
  destruct (Z.leb_spec (Py.len s + Py.len t) i); [lia|].
  rewrite nth_error_app1 by (unfold Py.len in Hlt; lia).
  rewrite Hn. reflexivity.
Qed.

Lemma index_middle {A} (s t : list A) x :
  index (s ++ x :: t) (Py.len s) = Ret x.
Proof.
  pose proof (len_nonneg s). pose proof (len_nonneg t).
  unfold index. rewrite getitem_nonneg, len_app by lia.
  assert (Py.len (x :: t) = 1 + Py.len t) by (unfold Py.len; simpl length; lia).
  destruct (Z.leb_spec (Py.len s + Py.len (x :: t)) (Py.len s)); [lia|].
  unfold Py.len. rewrite Nat2Z.id, nth_error_app2, Nat.sub_diag by lia.
  reflexivity.
Qed.

Lemma close_group_app fuel (raw tail : str) epos num r :
  0 <= epos -> close_group fuel raw epos num = Ret r ->
  close_group fuel (raw ++ tail) epos num = Ret r.
Proof.
  revert epos num. induction fuel as [|fuel IH]; intros epos num Hpos;
    simpl; [discriminate|].
  destruct (0 <? num); [|trivial].
  destruct (index raw (epos + 1)) as [c| |] eqn:Hc; simpl; try discriminate.
  rewrite (index_app_l raw tail _ c) by (lia || exact Hc). simpl.
  destruct (negb _); apply IH; lia.
Qed.

Lemma close_group_mono fuel fuel' (raw : str) epos num r :
  (fuel <= fuel')%nat -> close_group fuel raw epos num = Ret r ->
  close_group fuel' raw epos num = Ret r.
Proof.
  revert fuel' epos num. induction fuel as [|fuel IH];
    intros fuel' epos num Hle; simpl; [discriminate|].
  destruct fuel' as [|fuel']; [lia|]. simpl.
  destruct (0 <? num); [|trivial].
  destruct (index raw (epos + 1)) as [c| |]; simpl; try discriminate.
  destruct (negb _); apply IH; lia.
Qed.

Definition no_bracket (c : N) : Prop := Py.contains (py "[]") c = false.

(** From inside a group without inner brackets, the inner loop stops at
    the bracket that closes it. *)
Lemma close_group_cluster (b a t : str) fuel :
  a <> [] -> Forall no_bracket b -> (length b + 1 < fuel)%nat ->
  close_group fuel (a ++ b ++ 0x5D%N :: t) (Py.len a - 1) 1
  = Ret (Py.len a + Py.len b).
Proof.
  revert a fuel. induction b as [|c b IH]; intros a fuel Ha Hb Hfuel.
  - destruct fuel as [|[|fuel]]; [simpl in Hfuel; lia..|].
    cbn [close_group]. change (0 <? 1) with true. cbv iota.
    replace (Py.len a - 1 + 1) with (Py.len a) by lia.
    cbn [app]. rewrite index_middle. cbn. f_equal. unfold Py.len. simpl. lia.
  - destruct fuel as [|fuel]; [lia|].
    cbn [close_group]. change (0 <? 1) with true. cbv iota.
    replace (Py.len a - 1 + 1) with (Py.len a) by lia.
    cbn [app]. rewrite index_middle. cbn [mbind outcome_bind].
    inversion Hb as [|? ? Hc Hb']; subst. unfold no_bracket in Hc.
    rewrite Hc. cbn [negb].
    replace (a ++ c :: b ++ 0x5D%N :: t) with ((a ++ [c]) ++ b ++ 0x5D%N :: t)
      by (rewrite <- app_assoc; reflexivity).
    replace (Py.len a) with (Py.len (a ++ [c]) - 1)
      by (rewrite len_app; unfold Py.len; simpl; lia).
    rewrite IH; [|destruct a; discriminate|exact Hb'|simpl in Hfuel; lia].
    f_equal. rewrite !len_app. unfold Py.len. simpl length. lia.
Qed.

Lemma find_nonneg (s sub : str) start :
  0 <= start ->
  Py.find s sub start
  = if Py.len s <? start then -1
    else Py.find_in (skipn (Z.to_nat start) s) sub start.
Proof.
  intros H. unfold Py.find. destruct (Z.ltb_spec start 0); [lia|reflexivity].
Qed.

Lemma find_in_app_found (s t : str) c i :
  0 <= i -> Py.find_in s [c] i <> -1 ->
  Py.find_in (s ++ t) [c] i = Py.find_in s [c] i.
Proof.
  revert i. induction s as [|b s IH]; intros i Hi; simpl; [congruence|].
  destruct ((c =? b)%N && true); [reflexivity|]. apply IH. lia.
Qed.

Lemma find_in_app_missing (s t : str) c i :
  0 <= i -> Py.find_in s [c] i = -1 ->
  Py.find_in (s ++ c :: t) [c] i = i + Py.len s.
Proof.
  revert i. induction s as [|b s IH]; intros i Hi; simpl.
  - intros _. rewrite N.eqb_refl. simpl. unfold Py.len. simpl. lia.
  - destruct ((c =? b)%N && true); [lia|]. intros H.
    rewrite IH by (lia || exact H). unfold Py.len. simpl length. lia.
Qed.

Lemma find_in_absent (s : str) c i : c ∉ s -> Py.find_in s [c] i = -1.
Proof.
  revert i. induction s as [|b s IH]; intros i H; simpl; [reflexivity|].
  destruct (N.eqb_spec c b) as [->|_]; simpl.
  - exfalso. apply H. left.
  - apply IH. intros Hin. apply H. right. exact Hin.
Qed.

Lemma find_app_found (s t : str) c pos :
  0 <= pos -> Py.find s [c] pos <> -1 ->
  Py.find (s ++ t) [c] pos = Py.find s [c] pos.
Proof.
  intros Hpos. rewrite !find_nonneg, len_app by exact Hpos.
  pose proof (len_nonneg t).
  destruct (Z.ltb_spec (Py.len s) pos); [congruence|].
  destruct (Z.ltb_spec (Py.len s + Py.len t) pos); [lia|].
  intros Hf. rewrite skipn_app.
  replace (Z.to_nat pos - length s)%nat with 0%nat
    by (unfold Py.len in *; lia).
  apply find_in_app_found; assumption.
Qed.

Lemma find_app_missing (s t : str) c pos :
  0 <= pos <= Py.len s -> Py.find s [c] pos = -1 ->
  Py.find (s ++ c :: t) [c] pos = Py.len s.
Proof.
  intros Hpos. rewrite !find_nonneg, len_app by lia.
  pose proof (len_nonneg (c :: t)).
  destruct (Z.ltb_spec (Py.len s) pos); [lia|].
  destruct (Z.ltb_spec (Py.len s + Py.len (c :: t)) pos); [lia|].
  intros Hf. rewrite skipn_app.
  replace (Z.to_nat pos - length s)%nat with 0%nat
    by (unfold Py.len in *; lia).
  cbn [skipn]. rewrite find_in_app_missing by (lia || exact Hf).
  unfold Py.len in *. rewrite length_skipn. lia.
Qed.

Lemma find_absent (s : str) c pos :
  0 <= pos -> c ∉ skipn (Z.to_nat pos) s -> Py.find s [c] pos = -1.
Proof.
  intros Hpos H. rewrite find_nonneg by exact Hpos.
  destruct (Py.len s <? pos); [reflexivity|]. apply find_in_absent, H.
Qed.

Lemma clamp_id (s : str) i : 0 <= i <= Py.len s -> Py.clamp s i = i.
Proof.
  intros H. unfold Py.clamp. destruct (Z.ltb_spec i 0); lia.
Qed.

Lemma slice_app_l (s t : str) lo hi :
  0 <= lo <= hi -> hi <= Py.len s ->
  Py.slice (s ++ t) lo hi = Py.slice s lo hi.
Proof.
  intros Hlo Hhi. pose proof (len_nonneg t). unfold Py.slice.
  rewrite !clamp_id by (rewrite ?len_app; lia).
  rewrite skipn_app, firstn_app, length_skipn.
  replace (Z.to_nat lo - length s)%nat with 0%nat
    by (unfold Py.len in *; lia).
  replace (Z.to_nat (hi - lo) - (length s - Z.to_nat lo))%nat with 0%nat
    by (unfold Py.len in *; lia).
  cbn [firstn]. apply app_nil_r.
Qed.

Lemma slice_middle (a q t : str) :
  Py.slice (a ++ q ++ t) (Py.len a) (Py.len a + Py.len q) = q.
Proof.
  pose proof (len_nonneg a). pose proof (len_nonneg q).
  pose proof (len_nonneg t). unfold Py.slice.
  rewrite !clamp_id by (rewrite ?len_app; lia).
  replace (Py.len a + Py.len q - Py.len a) with (Py.len q) by lia.
  unfold Py.len. rewrite !Nat2Z.id.
  rewrite skipn_app, Nat.sub_diag, skipn_all. cbn [app].
  rewrite skipn_O, firstn_app, Nat.sub_diag, firstn_all. cbn [firstn].
  apply app_nil_r.
Qed.

Lemma scan_groups_mono fuel fuel' raw pos ans :
  (fuel <= fuel')%nat -> scan_groups fuel raw pos ans <> OutOfFuel ->
  scan_groups fuel' raw pos ans = scan_groups fuel raw pos ans.
Proof.
  revert fuel' pos ans. induction fuel as [|fuel IH];
    intros fuel' pos ans Hle; [simpl; congruence|].
  destruct fuel' as [|fuel']; [lia|]. cbn [scan_groups].
  destruct (Py.find raw (py "[") pos <? 0); [reflexivity|].
  destruct (close_group _ raw _ 1) as [e| |]; cbn [mbind outcome_bind];
    try reflexivity.
  destruct (store_group _ ans) as [a| |]; cbn [mbind outcome_bind];
    try reflexivity.
  apply IH. lia.
Qed.

Lemma scan_groups_S fuel raw pos ans :
  scan_groups (S fuel) raw pos ans
  = let pos := Py.find raw [0x5B%N] pos in
    if pos <? 0 then Ret ans
    else
      epos ← close_group (S (length raw)) raw pos 1;
      ans ← store_group (Py.slice raw (pos + 1) epos) ans;
      scan_groups fuel raw epos ans.
Proof. reflexivity. Qed.

(** A text scanned to its end, followed by one more group [q] without
    inner brackets: the scan goes on to store [q]. *)
Lemma scan_groups_append_group fuel (pre q : str) pos ans ans' :
  0 <= pos <= Py.len pre ->
  Forall no_bracket q ->
  scan_groups fuel pre pos ans = Ret ans' ->
  scan_groups (S fuel) (pre ++ 0x5B%N :: q ++ [0x5D%N]) pos ans
  = store_group q ans'.
Proof.
  intros Hpos Hq. revert pos ans Hpos.
  induction fuel as [|fuel IH]; intros pos ans Hpos H; [discriminate|].
  remember (pre ++ 0x5B%N :: q ++ [0x5D%N]) as raw eqn:Eraw.
  pose proof (len_nonneg pre) as Hpre. pose proof (len_nonneg q) as Hlq.
  assert (Eraw' : raw = (pre ++ [0x5B%N]) ++ q ++ [0x5D%N])
    by (subst raw; rewrite <- app_assoc; reflexivity).
  assert (Ha : Py.len (pre ++ [0x5B%N]) = Py.len pre + 1)
    by (rewrite len_app; reflexivity).
  assert (Hlen : length raw = (length pre + length q + 2)%nat)
    by (subst raw; rewrite length_app; simpl; rewrite length_app; simpl; lia).
  rewrite scan_groups_S in H. rewrite scan_groups_S. cbv zeta in *.
  destruct (find_bounds pre 0x5B%N pos ltac:(lia)) as [E|E].
  - (* no further group in [pre] *)
    rewrite E in H. simpl in H. injection H as ->.
    assert (Hfind : Py.find raw [0x5B%N] pos = Py.len pre)
      by (subst raw; apply find_app_missing; [lia|exact E]).
    rewrite Hfind. destruct (Z.ltb_spec (Py.len pre) 0); [lia|].
    assert (Hclose : close_group (S (length raw)) raw (Py.len pre) 1
                     = Ret (Py.len pre + 1 + Py.len q)).
    { rewrite Eraw' at 2. rewrite <- Ha.
      replace (Py.len pre) with (Py.len (pre ++ [0x5B%N]) - 1) by lia.
      apply close_group_cluster; [destruct pre; discriminate|exact Hq|lia]. }
    rewrite Hclose. cbn [mbind outcome_bind].
    assert (Hslice : Py.slice raw (Py.len pre + 1) (Py.len pre + 1 + Py.len q)
                     = q)
      by (rewrite Eraw', <- Ha; apply slice_middle).
    rewrite Hslice.
    destruct (store_group q ans') as [a| |]; cbn [mbind outcome_bind];
      try reflexivity.
    rewrite scan_groups_S. cbv zeta.
    rewrite find_absent; [reflexivity|lia|].
    replace (Z.to_nat (Py.len pre + 1 + Py.len q))
      with (length q + length (pre ++ [0x5B%N]))%nat
      by (unfold Py.len in *; rewrite length_app; simpl; lia).
    rewrite Eraw', <- skipn_skipn, skipn_app, Nat.sub_diag, skipn_all.
    cbn [app]. rewrite skipn_O, skipn_app, Nat.sub_diag, skipn_all. cbn.
    intros Hin. inversion Hin as [|? ? ? Hin']; subst. inversion Hin'.
  - (* a group of [pre] *)
    set (p := Py.find pre [0x5B%N] pos) in *.
    assert (Hfind : Py.find raw [0x5B%N] pos = p).
    { subst raw. apply find_app_found; [lia|]. fold p. lia. }
    rewrite Hfind. destruct (Z.ltb_spec p 0); [lia|].
    destruct (close_group (S (length pre)) pre p 1) as [e| |] eqn:He;
      try discriminate.
    destruct (close_group_fuel (S (length pre)) pre p 1) as [_ Hb];
      [lia|unfold Py.len; lia|].
    destruct (Hb e He) as [_ Hin]. specialize (Hin ltac:(lia)).
    assert (Hclose : close_group (S (length raw)) raw p 1 = Ret e).
    { apply (close_group_mono (S (length pre))); [lia|].
      subst raw. apply close_group_app; [lia|exact He]. }
    rewrite Hclose. cbn [mbind outcome_bind] in *.
    assert (Hslice : Py.slice raw (p + 1) e = Py.slice pre (p + 1) e)
      by (subst raw; apply slice_app_l; lia).
    rewrite Hslice.
    destruct (store_group (Py.slice pre (p + 1) e) ans) as [a| |];
      try discriminate.
    cbn [mbind outcome_bind] in *. apply IH; [lia|exact H].
Qed.

(** The table of a text followed by one more group [q]. *)
Lemma parse_usage_append_group (pre q : str) ans :
  parse_usage pre = Ret ans -> Forall no_bracket q ->
  parse_usage (pre ++ py "[" ++ q ++ py "]") = store_group q ans.
Proof.
  intros H Hq. unfold parse_usage in *.
  pose proof (len_nonneg pre).
  apply (scan_groups_append_group _ pre q 0 ∅ ans) in H; [|lia|exact Hq].
  change (pre ++ py "[" ++ q ++ py "]") with (pre ++ 0x5B%N :: q ++ [0x5D%N]).
  rewrite <- H. apply scan_groups_mono.
  - rewrite length_app. simpl. lia.
  - rewrite H. apply store_group_not_OutOfFuel.
Qed.

(** ** Clusters of flags *)

Lemma update_fromkeys_lookup (ans : gmap str str) (keys : str) (k : str) :
  update_fromkeys ans keys !! k
  = if decide (k ∈ List.map (fun c => [c]) keys) then Some (py "")
    else ans !! k.
Proof. apply (lookup_foldl_insert (fun c => [c])). Qed.

(** What [store_group] does with a dash followed by flags, no space among
    them. *)
Lemma store_group_cluster (flags : str) (ans : gmap str str) :
  flags <> [] -> (0x20%N ∉ flags) ->
  store_group (0x2D%N :: flags) ans = Ret (update_fromkeys ans flags).
Proof.
  intros Hne Hsp. unfold store_group.
  assert (Hlen : (Py.len (0x2D%N :: flags) <? 2) = false).
  { destruct flags as [|c flags]; [congruence|].
    unfold Py.len. simpl length. apply Z.ltb_ge. lia. }
  rewrite Hlen. change (Py.getitem (45%N :: flags) 0) with (Some 45%N).
  rewrite bool_decide_eq_true_2 by reflexivity. cbn [negb orb].
  assert (Hc : Py.contains (0x2D%N :: flags) 0x20 = false).
  { destruct (Py.contains (45%N :: flags) 32) eqn:E; [|reflexivity].
    apply contains_spec in E. inversion E; subst; try discriminate.
    contradiction. }
  rewrite Hc. f_equal. f_equal. unfold Py.slice_from.
  rewrite clamp_id; [reflexivity|].
  unfold Py.len. simpl length. lia.
Qed.

(** C4, as the code has it: a group that is a dash and a cluster of flags
    without spaces, met after the text [pre] has given the table [ans],
    maps every flag of the cluster to the empty string, whatever [ans]
    held for it, and leaves the other keys of [ans] as they were. *)
Theorem cluster_group_overwrites (pre flags : str) (ans : gmap str str) :
  parse_usage pre = Ret ans ->
  flags <> [] -> (0x20%N ∉ flags) -> Forall no_bracket flags ->
  exists ans',
    parse_usage (pre ++ py "[-" ++ flags ++ py "]") = Ret ans'
    /\ (forall c, c ∈ flags -> ans' !! [c] = Some (py ""))
    /\ (forall k, (forall c, c ∈ flags -> k <> [c]) -> ans' !! k = ans !! k).
Proof.
  intros Hpre Hne Hsp Hbr. exists (update_fromkeys ans flags).
  split; [|split].
  - change (pre ++ py "[-" ++ flags ++ py "]")
      with (pre ++ py "[" ++ (0x2D%N :: flags) ++ py "]").
    rewrite (parse_usage_append_group pre _ ans Hpre).
    + apply store_group_cluster; assumption.
    + constructor; [reflexivity|exact Hbr].
  - intros c Hc. rewrite update_fromkeys_lookup, decide_True; [reflexivity|].
    apply list_elem_of_In, (in_map (fun c => [c])), list_elem_of_In, Hc.
  - intros k Hk. rewrite update_fromkeys_lookup, decide_False; [reflexivity|].
    intros Hin. apply list_elem_of_In, in_map_iff in Hin as (c & <- & Hc).
    apply (Hk c); [apply list_elem_of_In, Hc|reflexivity].
Qed.

Lemma cluster_group_overwrites_witness :
  exists ans',
    parse_usage (py "usage: ssh [-b bind_address] " ++ py "[-" ++ py "ab" ++ py "]")
    = Ret ans'
    /\ (forall c, c ∈ py "ab" -> ans' !! [c] = Some (py ""))
    /\ (forall k, (forall c, c ∈ py "ab" -> k <> [c]) ->
          ans' !! k
          = ({[ py "b" := py "bind_address" ]} : gmap str str) !! k).
Proof.
  apply (cluster_group_overwrites (py "usage: ssh [-b bind_address] ")
           (py "ab") {[ py "b" := py "bind_address" ]}).
  - vm_compute. reflexivity.
  - discriminate.
  - intros H. apply contains_spec in H. discriminate.
  - repeat constructor.
Defined.

(** A cluster does not leave an earlier entry alone: b is mapped to
    "bind_address" when the cluster "-ab" is met, and to the empty string
    afterwards. *)
Lemma cluster_keeps_entry_counterexample :
  exists ans ans' : gmap str str,
    parse_usage (py "usage: ssh [-b bind_address] ") = Ret ans
    /\ parse_usage (py "usage: ssh [-b bind_address] [-ab]") = Ret ans'
    /\ ans !! py "b" = Some (py "bind_address")
    /\ ans' !! py "b" = Some (py "")
    /\ ans' !! py "b" <> ans !! py "b".
Proof.
  exists {[ py "b" := py "bind_address" ]},
         {[ py "a" := py ""; py "b" := py "" ]}.
  repeat split; try (vm_compute; reflexivity). discriminate.
Qed.

(** * Further properties of the program *)

(** ** Groups with inner brackets *)

(** The count of open brackets after the character [c]. *)
Definition step_depth (num : Z) (c : N) : Z :=
  if (c =? 0x5B)%N then num + 1
  else if (c =? 0x5D)%N then num - 1
  else num.

(** With [num] brackets open before it, the text [q] never closes the
    last of them and leaves exactly one open. *)
Fixpoint well_nested_from (num : Z) (q : str) : bool :=
  match q with
  | [] => num =? 1
  | c :: q' =>
      let n := step_depth num c in
      (0 <? n) && well_nested_from n q'
  end.

(** The brackets inside [q] are balanced. *)
Definition well_nested (q : str) : Prop := well_nested_from 1 q = true.

Lemma close_group_S fuel (raw : str) epos num :
  close_group (S fuel) raw epos num
  = if 0 <? num then
      c ← index raw (epos + 1);
      close_group fuel raw (epos + 1) (step_depth num c)
    else Ret epos.
Proof.
  cbn [close_group]. destruct (0 <? num); [|reflexivity].
  destruct (index raw (epos + 1)) as [c| |]; cbn [mbind outcome_bind];
    try reflexivity.
  unfold Py.contains, step_depth. simpl existsb.
  destruct (N.eqb_spec c 91), (N.eqb_spec c 93); simpl;
    try reflexivity; try (subst; discriminate).
Qed.

(** From inside a group, the inner loop stops at the bracket that matches
    the opening one. *)
Lemma close_group_nested (q a t : str) fuel num :
  a <> [] -> 0 < num -> well_nested_from num q = true ->
  (length q + 1 < fuel)%nat ->
  close_group fuel (a ++ q ++ 0x5D%N :: t) (Py.len a - 1) num
  = Ret (Py.len a + Py.len q).
Proof.
  revert a fuel num. induction q as [|c q IH]; intros a fuel num Ha Hnum Hq Hf.
  - simpl in Hq. apply Z.eqb_eq in Hq. subst num.
    destruct fuel as [|[|fuel]]; [simpl in Hf; lia..|].
    rewrite close_group_S. change (0 <? 1) with true. cbv iota.
    replace (Py.len a - 1 + 1) with (Py.len a) by lia.
    cbn [app]. rewrite index_middle. cbn [mbind outcome_bind].
    rewrite close_group_S. change (step_depth 1 93) with 0.
    change (0 <? 0) with false. cbv iota. f_equal. unfold Py.len. simpl. lia.
  - simpl in Hq. apply andb_true_iff in Hq as [Hpos Hq].
    apply Z.ltb_lt in Hpos.
    destruct fuel as [|fuel]; [lia|].
    rewrite close_group_S. destruct (Z.ltb_spec 0 num); [|lia].
    replace (Py.len a - 1 + 1) with (Py.len a) by lia.
    cbn [app]. rewrite index_middle. cbn [mbind outcome_bind].
    replace (a ++ c :: q ++ 0x5D%N :: t) with ((a ++ [c]) ++ q ++ 0x5D%N :: t)
      by (rewrite <- app_assoc; reflexivity).
    replace (Py.len a) with (Py.len (a ++ [c]) - 1)
      by (rewrite len_app; unfold Py.len; simpl; lia).
    rewrite IH; [|destruct a; discriminate|exact Hpos|exact Hq
                 |simpl in Hf; lia].
    f_equal. rewrite !len_app. unfold Py.len. simpl length. lia.
Qed.

(** A text scanned to its end, followed by one more group [q], whose
    inner brackets are balanced, and by a text without groups. *)
Lemma scan_groups_append_nested fuel (pre q post : str) pos ans ans' :
  0 <= pos <= Py.len pre ->
  well_nested q -> (0x5B%N ∉ post) ->
  scan_groups fuel pre pos ans = Ret ans' ->
  scan_groups (S fuel) (pre ++ 0x5B%N :: q ++ 0x5D%N :: post) pos ans
  = store_group q ans'.
Proof.
  intros Hpos Hq Hpost. revert pos ans Hpos.
  induction fuel as [|fuel IH]; intros pos ans Hpos H; [discriminate|].
  remember (pre ++ 0x5B%N :: q ++ 0x5D%N :: post) as raw eqn:Eraw.
  pose proof (len_nonneg pre) as Hpre. pose proof (len_nonneg q) as Hlq.
  assert (Eraw' : raw = (pre ++ [0x5B%N]) ++ q ++ 0x5D%N :: post)
    by (subst raw; rewrite <- app_assoc; reflexivity).
  assert (Ha : Py.len (pre ++ [0x5B%N]) = Py.len pre + 1)
    by (rewrite len_app; reflexivity).
  assert (Hlen : length raw = (length pre + length q + 2 + length post)%nat)
    by (subst raw; rewrite length_app; simpl; rewrite length_app; simpl; lia).
  rewrite scan_groups_S in H. rewrite scan_groups_S. cbv zeta in *.
  destruct (find_bounds pre 0x5B%N pos ltac:(lia)) as [E|E].
  - rewrite E in H. simpl in H. injection H as ->.
    assert (Hfind : Py.find raw [0x5B%N] pos = Py.len pre)
      by (subst raw; apply find_app_missing; [lia|exact E]).
    rewrite Hfind. destruct (Z.ltb_spec (Py.len pre) 0); [lia|].
    assert (Hclose : close_group (S (length raw)) raw (Py.len pre) 1
                     = Ret (Py.len pre + 1 + Py.len q)).
    { rewrite Eraw' at 2. rewrite <- Ha.
      replace (Py.len pre) with (Py.len (pre ++ [0x5B%N]) - 1) by lia.
      apply close_group_nested;
        [destruct pre; discriminate|lia|exact Hq|lia]. }
    rewrite Hclose. cbn [mbind outcome_bind].
    assert (Hslice : Py.slice raw (Py.len pre + 1) (Py.len pre + 1 + Py.len q)
                     = q)
      by (rewrite Eraw', <- Ha; apply slice_middle).
    rewrite Hslice.
    destruct (store_group q ans') as [a| |]; cbn [mbind outcome_bind];
      try reflexivity.
    rewrite scan_groups_S. cbv zeta.
    rewrite find_absent; [reflexivity|lia|].
    replace (Z.to_nat (Py.len pre + 1 + Py.len q))
      with (length q + length (pre ++ [0x5B%N]))%nat
      by (unfold Py.len in *; rewrite length_app; simpl; lia).
    rewrite Eraw', <- skipn_skipn, skipn_app, Nat.sub_diag, skipn_all.
    cbn [app]. rewrite skipn_O, skipn_app, Nat.sub_diag, skipn_all. cbn.
    intros Hin. inversion Hin as [|? ? ? Hin']; subst. contradiction.
  - set (p := Py.find pre [0x5B%N] pos) in *.
    assert (Hfind : Py.find raw [0x5B%N] pos = p).
    { subst raw. apply find_app_found; [lia|]. fold p. lia. }
    rewrite Hfind. destruct (Z.ltb_spec p 0); [lia|].
    destruct (close_group (S (length pre)) pre p 1) as [e| |] eqn:He;
      try discriminate.
    destruct (close_group_fuel (S (length pre)) pre p 1) as [_ Hb];
      [lia|unfold Py.len; lia|].
    destruct (Hb e He) as [_ Hin]. specialize (Hin ltac:(lia)).
    assert (Hclose : close_group (S (length raw)) raw p 1 = Ret e).
    { apply (close_group_mono (S (length pre))); [lia|].
      subst raw. apply close_group_app; [lia|exact He]. }
    rewrite Hclose. cbn [mbind outcome_bind] in *.
    assert (Hslice : Py.slice raw (p + 1) e = Py.slice pre (p + 1) e)
      by (subst raw; apply slice_app_l; lia).
    rewrite Hslice.
    destruct (store_group (Py.slice pre (p + 1) e) ans) as [a| |];
      try discriminate.
    cbn [mbind outcome_bind] in *. apply IH; [lia|exact H].
Qed.

Lemma parse_usage_append_nested (pre q post : str) ans :
  parse_usage pre = Ret ans -> well_nested q -> (0x5B%N ∉ post) ->
  parse_usage (pre ++ py "[" ++ q ++ py "]" ++ post) = store_group q ans.
Proof.
  intros H Hq Hpost. unfold parse_usage in *.
  pose proof (len_nonneg pre).
  apply (scan_groups_append_nested _ pre q post 0 ∅ ans) in H;
    [|lia|exact Hq|exact Hpost].
  change (pre ++ py "[" ++ q ++ py "]" ++ post)
    with (pre ++ 0x5B%N :: q ++ 0x5D%N :: post).
  rewrite <- H. apply scan_groups_mono.
  - rewrite length_app. simpl. rewrite length_app. simpl. lia.
  - rewrite H. apply store_group_not_OutOfFuel.
Qed.

(** ** Outcomes of the scan *)

Lemma split_once_cases (s : str) (sep : N) :
  (Py.split_once s sep = [s] /\ sep ∉ s)
  \/ exists a b, Py.split_once s sep = [a; b] /\ s = a ++ sep :: b
                 /\ sep ∉ a.
Proof.
  induction s as [|c s IH]; simpl.
  - left. split; [reflexivity|]. intros H. inversion H.
  - destruct (N.eqb_spec c sep) as [->|Hne].
    + right. exists [], s. repeat split. intros H. inversion H.
    + destruct IH as [[-> Hno]|(a & b & -> & -> & Hno)].
      * left. split; [reflexivity|].
        intros H. inversion H; subst; congruence || contradiction.
      * right. exists (c :: a), b. repeat split.
        intros H. inversion H; subst; congruence || contradiction.
Qed.

Lemma split_once_at (a b : str) (sep : N) :
  (sep ∉ a) -> Py.split_once (a ++ sep :: b) sep = [a; b].
Proof.
  induction a as [|c a IH]; intros Hno; simpl.
  - rewrite N.eqb_refl. reflexivity.
  - destruct (N.eqb_spec c sep) as [->|_]; [exfalso; apply Hno; left|].
    rewrite IH; [reflexivity|]. intros H. apply Hno. right. exact H.
Qed.

Lemma store_group_returns q ans : exists ans', store_group q ans = Ret ans'.
Proof.
  unfold store_group. destruct (_ || _); [eauto|].
  destruct (Py.contains q 32) eqn:Hc; [|eauto].
  apply contains_spec in Hc.
  destruct (split_once_cases q 32) as [[_ Hno]|(a & b & -> & _)];
    [contradiction|eauto].
Qed.

Lemma close_group_raises fuel (raw : str) epos num e :
  close_group fuel raw epos num = Raise e -> e = IndexError.
Proof.
  revert epos num. induction fuel as [|fuel IH]; intros epos num;
    [discriminate|].
  rewrite close_group_S. destruct (0 <? num); [|discriminate].
  unfold index. destruct (Py.getitem raw (epos + 1));
    cbn [mbind outcome_bind]; [apply IH|congruence].
Qed.

Lemma scan_groups_raises fuel (raw : str) pos ans e :
  scan_groups fuel raw pos ans = Raise e -> e = IndexError.
Proof.
  revert pos ans. induction fuel as [|fuel IH]; intros pos ans;
    [discriminate|].
  rewrite scan_groups_S. cbv zeta.
  destruct (_ <? 0); [discriminate|].
  destruct (close_group _ raw _ 1) as [ep|e'|] eqn:Hc;
    cbn [mbind outcome_bind]; [| |discriminate].
  - destruct (store_group_returns (Py.slice raw (Py.find raw [91%N] pos + 1) ep)
                ans) as [a ->].
    cbn [mbind outcome_bind]. apply IH.
  - intros [= <-]. eapply close_group_raises, Hc.
Qed.

(** X1: for every text, the scan of the usage message ends, and it ends
    with a table or with [IndexError]; no other exception leaves it. *)
Theorem parse_usage_outcomes (raw : str) :
  (exists ans, parse_usage raw = Ret ans)
  \/ parse_usage raw = Raise IndexError.
Proof.
  destruct (parse_usage raw) as [ans|e|] eqn:H.
  - left. eauto.
  - right. unfold parse_usage in H. apply scan_groups_raises in H.
    subst. reflexivity.
  - exfalso. revert H. unfold parse_usage. apply scan_groups_fuel; [lia|].
    unfold Py.len. lia.
Qed.

(** X2: a text without an opening bracket, the empty text included,
    gives the empty table. *)
Theorem parse_usage_no_group (raw : str) :
  (0x5B%N ∉ raw) -> parse_usage raw = Ret ∅.
Proof.
  intros H. unfold parse_usage. rewrite scan_groups_S. cbv zeta.
  rewrite find_absent; [reflexivity|lia|]. exact H.
Qed.

Lemma parse_usage_no_group_witness :
  parse_usage (py "ssh: command not found") = Ret ∅.
Proof.
  apply parse_usage_no_group. intros H. apply contains_spec in H.
  discriminate.
Defined.

(** X3: a group "-opt desc", met after the text [pre] has given the table
    [ans], stores [desc], all that follows the first space, under the key
    [opt], the text between the dash and that space, in place of what
    [ans] held there; [desc] may hold balanced brackets, which are not
    scanned as groups of their own. *)
Theorem parse_usage_described_flag (pre opt desc post : str)
    (ans : gmap str str) :
  parse_usage pre = Ret ans ->
  (0x20%N ∉ opt) -> well_nested (0x2D%N :: opt ++ 0x20%N :: desc) ->
  (0x5B%N ∉ post) ->
  parse_usage (pre ++ py "[" ++ (py "-" ++ opt ++ py " " ++ desc)
                 ++ py "]" ++ post)
  = Ret (<[ opt := desc ]> ans).
Proof.
  intros Hpre Hsp Hq Hpost.
  change (py "-" ++ opt ++ py " " ++ desc)
    with (0x2D%N :: opt ++ 0x20%N :: desc).
  rewrite (parse_usage_append_nested pre _ post ans Hpre Hq Hpost).
  unfold store_group.
  assert (Hlen : (Py.len (0x2D%N :: opt ++ 0x20%N :: desc) <? 2) = false).
  { apply Z.ltb_ge. unfold Py.len. simpl length. rewrite length_app.
    simpl. lia. }
  rewrite Hlen. change (Py.getitem (45%N :: opt ++ 32%N :: desc) 0)
    with (Some 45%N).
  rewrite bool_decide_eq_true_2 by reflexivity. cbn [negb orb].
  assert (Hc : Py.contains (0x2D%N :: opt ++ 0x20%N :: desc) 0x20 = true).
  { apply contains_spec. right. apply elem_of_app. right. left. }
  rewrite Hc.
  change (0x2D%N :: opt ++ 0x20%N :: desc)
    with ((0x2D%N :: opt) ++ 0x20%N :: desc).
  rewrite split_once_at.
  - f_equal. f_equal. unfold Py.slice_from. rewrite clamp_id; [reflexivity|].
    unfold Py.len. simpl length. lia.
  - intros H. inversion H; subst; discriminate || contradiction.
Qed.

Lemma parse_usage_described_flag_witness :
  parse_usage (py "usage: ssh [-J dest]" ++ py "[" ++ (py "-" ++ py "J"
                 ++ py " " ++ py "[user@]host[:port]") ++ py "]"
                 ++ py " destination")
  = Ret (<[ py "J" := py "[user@]host[:port]" ]>
           ({[ py "J" := py "dest" ]} : gmap str str)).
Proof.
  apply (parse_usage_described_flag (py "usage: ssh [-J dest]") (py "J")
           (py "[user@]host[:port]") (py " destination")).
  - vm_compute. reflexivity.
  - intros H. apply contains_spec in H. discriminate.
  - reflexivity.
  - intros H. apply contains_spec in H. discriminate.
Defined.

(** X4: a group of fewer than two characters, or one that does not start
    with a dash, adds nothing to the table. *)
Theorem parse_usage_ignored_group (pre q post : str) (ans : gmap str str) :
  parse_usage pre = Ret ans -> well_nested q -> (0x5B%N ∉ post) ->
  Py.len q < 2 \/ Py.getitem q 0 <> Some 0x2D%N ->
  parse_usage (pre ++ py "[" ++ q ++ py "]" ++ post) = Ret ans.
Proof.
  intros Hpre Hq Hpost Hskip.
  rewrite (parse_usage_append_nested pre q post ans Hpre Hq Hpost).
  unfold store_group. destruct Hskip as [H|H].
  - destruct (Z.ltb_spec (Py.len q) 2); [reflexivity|lia].
  - rewrite (bool_decide_eq_false_2 _ H). rewrite orb_true_r. reflexivity.
Qed.

Lemma parse_usage_ignored_group_witness :
  parse_usage (py "usage: ssh [-4]" ++ py "[" ++ py "user@" ++ py "]"
                 ++ py "hostname")
  = Ret {[ py "4" := py "" ]}.
Proof.
  apply (parse_usage_ignored_group (py "usage: ssh [-4]") (py "user@")
           (py "hostname")).
  - vm_compute. reflexivity.
  - reflexivity.
  - intros H. apply contains_spec in H. discriminate.
  - right. discriminate.
Defined.

Lemma parse_usage_unclosed_witness :
  parse_usage (py "usage: ssh [-46AaC") = Raise IndexError.
Proof.
  apply parse_usage_unclosed.
  - apply contains_spec. reflexivity.
  - intros H. apply contains_spec in H. discriminate.
Defined.

(** ** The host sources *)

Definition host_files : list str :=
  [py "~/.ssh/config"; py "~/.ssh/known_hosts"; py "/etc/ssh/ssh_known_hosts";
   py "/etc/hosts"].

Lemma lines_from_file_returns env path :
  (forall e, open_file env path <> Unreadable e) ->
  exists ls, lines_from_file env path = Ret ls.
Proof.
  intros H. unfold lines_from_file.
  destruct (open_file env path) as [|ls|e]; [eauto..|].
  destruct (H e eq_refl).
Qed.

Lemma lines_from_command_returns env cmd :
  exists ls, lines_from_command env cmd = Ret ls.
Proof.
  unfold lines_from_command. destruct (check_output env cmd); [|eauto].
  destruct (Utf8.decode _); eauto.
Qed.

(** X6: [known_hosts] returns whenever none of the four files fails
    while it is read; a file that cannot be opened, a [getent] that cannot
    be run or exits with an error, and output of [getent] that is not
    UTF-8 never make it raise. *)
Theorem known_hosts_returns isdigit env :
  (forall path e, path ∈ host_files -> open_file env path <> Unreadable e) ->
  exists hosts, known_hosts isdigit env = Ret hosts.
Proof.
  intros H. unfold known_hosts, iter_known_hosts, parts_yielder.
  destruct (lines_from_file_returns env (py "~/.ssh/config")) as [l1 ->].
  { intros e. apply H. repeat constructor. }
  destruct (lines_from_file_returns env (py "~/.ssh/known_hosts")) as [l2 ->].
  { intros e. apply H. repeat constructor. }
  destruct (lines_from_file_returns env (py "/etc/ssh/ssh_known_hosts"))
    as [l3 ->].
  { intros e. apply H. repeat constructor. }
  destruct (lines_from_file_returns env (py "/etc/hosts")) as [l4 ->].
  { intros e. apply H. repeat constructor. }
  destruct (lines_from_command_returns env [py "getent"; py "hosts"])
    as [l5 ->].
  cbn [mbind outcome_bind]. eauto.
Qed.

Lemma known_hosts_returns_witness :
  exists hosts, known_hosts ascii_digit (bare_env None) = Ret hosts.
Proof.
  apply known_hosts_returns. intros path e _. discriminate.
Defined.

(** X7: the hosts returned are exactly the yielded tokens that hold
    neither '*' nor '[': [known_hosts] offers no host that no source
    yielded. *)
Theorem known_hosts_exact isdigit env (tokens hosts : list str) :
  iter_known_hosts isdigit env = Ret tokens ->
  known_hosts isdigit env = Ret hosts ->
  forall x, x ∈ hosts <-> x ∈ tokens /\ (0x2A%N ∉ x) /\ (0x5B%N ∉ x).
Proof.
  intros Htok. unfold known_hosts. rewrite Htok.
  cbn [mbind outcome_bind]. intros [= <-] x.
  rewrite sorted_hosts_elem, plain_host_spec. reflexivity.
Qed.

Lemma known_hosts_exact_witness :
  py "host7" ∈ demo_hosts
  <-> py "host7" ∈ demo_tokens
      /\ (0x2A%N ∉ py "host7") /\ (0x5B%N ∉ py "host7").
Proof.
  apply (known_hosts_exact ascii_digit demo_env).
  - vm_compute. reflexivity.
  - vm_compute. reflexivity.
Defined.

(** X8: the hosts returned depend on the set of yielded tokens only:
    the order in which the sources yield them and the number of times a
    token is yielded make no difference. *)
Theorem sorted_hosts_set_invariant (tokens1 tokens2 : list str) :
  (forall x, x ∈ tokens1 <-> x ∈ tokens2) ->
  sorted_hosts tokens1 = sorted_hosts tokens2.
Proof.
  intros H. apply (StronglySorted_unique Py.le).
  - apply sorted_hosts_sorted.
  - apply sorted_hosts_sorted.
  - apply NoDup_Permutation; [apply sorted_hosts_NoDup..|].
    intros x. rewrite !sorted_hosts_elem, H. reflexivity.
Qed.

Lemma sorted_hosts_set_invariant_witness :
  sorted_hosts [py "b"; py "a"; py "b"] = sorted_hosts [py "a"; py "b"; py "a"].
Proof.
  apply sorted_hosts_set_invariant. intros x. split; intros H;
    repeat (apply elem_of_cons in H as [->|H]); try (inversion H; fail);
    repeat constructor.
Defined.

(** ** Tokens of the filters *)

Lemma split_from_nonempty_fields (field s : str) :
  Forall (fun w => w <> []) (Py.split_from field s).
Proof.
  revert field. induction s as [|c s IH]; intros field; simpl.
  - destruct field; repeat constructor. discriminate.
  - destruct (Py.isspace c).
    + destruct field; [apply IH|]. constructor; [discriminate|apply IH].
    + apply IH.
Qed.

(** Every field is free of whitespace and not empty. *)
Lemma split_field (s w : str) :
  w ∈ Py.split s -> w <> [] /\ Forall (fun c => Py.isspace c = false) w.
Proof.
  intros Hw. split.
  - pose proof (split_from_nonempty_fields [] s) as H.
    rewrite Forall_forall in H. exact (H w Hw).
  - pose proof (split_fields s) as H.
    rewrite Forall_forall in H. exact (H w Hw).
Qed.

Lemma sub_port_from_subset isdigit (s : str) k c :
  c ∈ sub_port_from isdigit k s -> c ∈ s.
Proof.
  revert k. induction s as [|d s IH]; intros k; simpl; [trivial|].
  destruct k as [|k]; [|intros H; right; exact (IH _ H)].
  assert (Hrec : c ∈ d :: sub_port_from isdigit 0 s -> c ∈ d :: s).
  { intros H. inversion H; subst; [left|right; exact (IH _ ltac:(eassumption))]. }
  destruct (d =? 58)%N; [|exact Hrec].
  destruct (digits_to_end isdigit s); [|exact Hrec].
  intros H. right. exact (IH _ H).
Qed.

(** X9: a token that the filter of ssh config or of the hosts file
    yields is not empty and holds no whitespace; a token that the filter
    of known_hosts yields holds no whitespace. *)
Theorem filter_tokens isdigit (line t : str) :
  (t ∈ hosts_from_config_lines line \/ t ∈ hosts_from_hosts line ->
   t <> [] /\ Forall (fun c => Py.isspace c = false) t)
  /\ (t ∈ hosts_from_known_hosts isdigit line ->
      Forall (fun c => Py.isspace c = false) t).
Proof.
  split.
  - intros H. apply (split_field (Py.strip line)).
    destruct H as [H|H].
    + unfold hosts_from_config_lines in H.
      destruct (Py.split (Py.strip line)) as [|p0 [|p1 r]];
        try (inversion H; fail).
      destruct (bool_decide _); [|inversion H].
      apply list_elem_of_singleton in H as ->. right. left.
    + unfold hosts_from_hosts in H.
      destruct (negb _); [|inversion H].
      destruct (Py.split (Py.strip line)) as [|p0 [|p1 [|p2 r]]];
        simpl in H; try (inversion H; fail);
        repeat (apply elem_of_cons in H as [->|H]);
        try (inversion H; fail); repeat constructor.
  - unfold hosts_from_known_hosts.
    destruct (Py.split (Py.strip line)) as [|p0 r] eqn:E;
      [intros H; inversion H|].
    intros H. apply list_elem_of_singleton in H as ->.
    destruct (split_field (Py.strip line) p0) as [_ Hp0];
      [rewrite E; left|].
    rewrite Forall_forall in *. intros c Hc. apply Hp0.
    eapply sub_port_from_subset, Hc.
Qed.

Lemma filter_tokens_witness :
  py "web" <> []
  /\ Forall (fun c => Py.isspace c = false) (py "web").
Proof.
  destruct (filter_tokens ascii_digit (py "  Host web db
") (py "web")) as [H _].
  apply H. left. left.
Defined.

Lemma lstrip_head (c : N) (s : str) :
  Py.isspace c = false -> Py.lstrip (c :: s) = c :: s.
Proof. intros H. simpl. rewrite H. reflexivity. Qed.

Lemma strip_plain (s : str) :
  Forall (fun c => Py.isspace c = false) s -> Py.strip s = s.
Proof.
  intros H. unfold Py.strip, Py.rstrip.
  assert (Hl : forall s : str, Forall (fun c => Py.isspace c = false) s ->
                          Py.lstrip s = s).
  { intros [|c r] Hs; [reflexivity|]. inversion Hs; subst.
    apply lstrip_head. assumption. }
  rewrite (Hl s H), Hl, rev_involutive; [reflexivity|].
  apply Forall_forall. intros c Hc. rewrite Forall_forall in H. apply H.
  apply list_elem_of_In, in_rev, list_elem_of_In, Hc.
Qed.

Lemma split_from_plain (field s : str) :
  Forall (fun c => Py.isspace c = false) s -> field ++ s <> [] ->
  Py.split_from field s = [field ++ s].
Proof.
  revert field. induction s as [|c s IH]; intros field Hs Hne; simpl.
  - rewrite app_nil_r in *. destruct field; [congruence|reflexivity].
  - inversion Hs as [|? ? Hc Hs']; subst. rewrite Hc.
    rewrite IH; [|exact Hs'|destruct field; discriminate].
    rewrite <- app_assoc. reflexivity.
Qed.

(** *** The fields of a line, read off its text *)

Lemma split_from_space_prefix (ws s : str) :
  Forall (fun c => Py.isspace c = true) ws ->
  Py.split_from [] (ws ++ s) = Py.split_from [] s.
Proof.
  induction 1 as [|c ws Hc _ IH]; [reflexivity|]. simpl. rewrite Hc. exact IH.
Qed.

Lemma split_from_word (field w s : str) :
  Forall (fun c => Py.isspace c = false) w ->
  Py.split_from field (w ++ s) = Py.split_from (field ++ w) s.
Proof.
  intros H. revert field. induction H as [|c w Hc _ IH]; intros field.
  - rewrite app_nil_r. reflexivity.
  - simpl. rewrite Hc, IH, <- app_assoc. reflexivity.
Qed.

(** The text after a field: nothing, or whitespace first. *)
Definition field_end (rest : str) : Prop :=
  rest = [] \/ exists c r, rest = c :: r /\ Py.isspace c = true.

Lemma split_from_field_end (field rest : str) :
  field <> [] -> field_end rest ->
  Py.split_from field rest = field :: Py.split_from [] rest.
Proof.
  intros Hne [->|(c & r & -> & Hc)]; simpl.
  - destruct field; [congruence|reflexivity].
  - rewrite Hc. destruct field; [congruence|reflexivity].
Qed.

(** A line that starts, after whitespace, with the field [w]. *)
Lemma split_first_field (ws w rest : str) :
  Forall (fun c => Py.isspace c = true) ws ->
  w <> [] -> Forall (fun c => Py.isspace c = false) w -> field_end rest ->
  Py.split (ws ++ w ++ rest) = w :: Py.split rest.
Proof.
  intros Hws Hne Hw Hrest. unfold Py.split.
  rewrite (split_from_space_prefix ws _ Hws), (split_from_word [] w rest Hw).
  cbn [app]. apply split_from_field_end; assumption.
Qed.

Lemma split_from_space_suffix (field s ws : str) :
  Forall (fun c => Py.isspace c = true) ws ->
  Py.split_from field (s ++ ws) = Py.split_from field s.
Proof.
  intros Hws. revert field. induction s as [|c s IH]; intros field.
  - cbn [app]. revert field.
    induction Hws as [|c ws Hc _ IH]; intros field; [reflexivity|].
    simpl. rewrite Hc. destruct field; [apply (IH [])|].
    rewrite (IH []). reflexivity.
  - simpl. destruct (Py.isspace c); [|apply IH].
    destruct field; rewrite IH; reflexivity.
Qed.

Lemma lstrip_decomp (s : str) :
  exists ws, Forall (fun c => Py.isspace c = true) ws
             /\ s = ws ++ Py.lstrip s.
Proof.
  induction s as [|c s (ws & Hws & IH)]; [exists []; split; [constructor|reflexivity]|].
  simpl. destruct (Py.isspace c) eqn:Hc.
  - exists (c :: ws). split; [constructor; assumption|].
    cbn [app]. rewrite <- IH. reflexivity.
  - exists []. split; [constructor|reflexivity].
Qed.

(** [line.strip().split()] gives the fields of the line itself. *)
Lemma split_strip (s : str) : Py.split (Py.strip s) = Py.split s.
Proof.
  unfold Py.strip, Py.rstrip, Py.split.
  destruct (lstrip_decomp s) as (ws & Hws & Es).
  destruct (lstrip_decomp (rev (Py.lstrip s))) as (ws' & Hws' & Er).
  rewrite Es at 2. rewrite (split_from_space_prefix ws _ Hws).
  assert (Et : Py.lstrip s = rev (Py.lstrip (rev (Py.lstrip s))) ++ rev ws').
  { rewrite <- rev_app_distr, <- Er, rev_involutive. reflexivity. }
  rewrite Et at 2. rewrite split_from_space_suffix; [reflexivity|].
  apply Forall_forall. intros x Hx. rewrite Forall_forall in Hws'.
  apply Hws'. apply list_elem_of_In, in_rev, list_elem_of_In, Hx.
Qed.

(** X10: a line of known_hosts whose first field is a colon followed by
    digits alone yields the empty string as a host, whatever follows the
    field: the theorem gives it for a line by its fields, and for a line
    by its text, which is whitespace, the field, and then nothing or
    whitespace and more. *)
Theorem hosts_from_known_hosts_empty_token isdigit (ds : str) :
  ds <> [] -> Forall (fun c => isdigit c = true) ds ->
  (forall line fields,
     Py.split (Py.strip line) = (0x3A%N :: ds) :: fields ->
     hosts_from_known_hosts isdigit line = [py ""])
  /\ (forall ws rest,
        Forall (fun c => Py.isspace c = true) ws ->
        Forall (fun c => Py.isspace c = false) ds -> field_end rest ->
        hosts_from_known_hosts isdigit (ws ++ (0x3A%N :: ds) ++ rest)
        = [py ""]).
Proof.
  intros Hne Hd.
  assert (Hfield : forall line fields,
            Py.split (Py.strip line) = (0x3A%N :: ds) :: fields ->
            hosts_from_known_hosts isdigit line = [py ""]).
  { intros line fields E. unfold hosts_from_known_hosts. rewrite E.
    unfold sub_port. cbn [sub_port_from]. rewrite N.eqb_refl.
    rewrite (digits_to_end_all isdigit ds Hne Hd).
    rewrite sub_port_from_all by lia. reflexivity. }
  split; [exact Hfield|].
  intros ws rest Hws Hs Hrest. apply (Hfield _ (Py.split rest)).
  rewrite split_strip. apply split_first_field;
    [exact Hws|discriminate| |exact Hrest].
  constructor; [reflexivity|exact Hs].
Qed.

Lemma hosts_from_known_hosts_empty_token_witness :
  hosts_from_known_hosts ascii_digit (py ":22 ssh-rsa AAAA") = [py ""]
  /\ hosts_from_known_hosts ascii_digit
       (py " " ++ (0x3A%N :: py "22") ++ py " ssh-rsa AAAA
") = [py ""].
Proof.
  destruct (hosts_from_known_hosts_empty_token ascii_digit (py "22"))
    as [H1 H2]; [discriminate|repeat constructor|].
  split.
  - apply (H1 (py ":22 ssh-rsa AAAA") [py "ssh-rsa"; py "AAAA"]).
    reflexivity.
  - apply H2; [repeat constructor..|].
    right. exists 0x20%N, (py "ssh-rsa AAAA
"). split; reflexivity.
Defined.

(** ** Whitespace around a line *)

Lemma lstrip_app (s t : str) :
  Py.lstrip (s ++ t)
  = match Py.lstrip s with
    | [] => Py.lstrip t
    | c :: r => (c :: r) ++ t
    end.
Proof.
  induction s as [|c s IH]; simpl.
  - destruct (Py.lstrip t); reflexivity.
  - destruct (Py.isspace c); [exact IH|reflexivity].
Qed.

Lemma strip_padding (ws1 s ws2 : str) :
  Forall (fun c => Py.isspace c = true) ws1 ->
  Forall (fun c => Py.isspace c = true) ws2 ->
  Py.strip (ws1 ++ s ++ ws2) = Py.strip s.
Proof.
  intros H1 H2. unfold Py.strip.
  rewrite lstrip_app, (lstrip_all_space ws1 H1), lstrip_app.
  destruct (Py.lstrip s) as [|c r].
  - rewrite (lstrip_all_space ws2 H2). reflexivity.
  - unfold Py.rstrip. rewrite rev_app_distr, lstrip_app.
    rewrite lstrip_all_space; [reflexivity|].
    apply Forall_forall. intros x Hx. rewrite Forall_forall in H2.
    apply H2. apply list_elem_of_In, in_rev, list_elem_of_In, Hx.
Qed.

(** X11: whitespace before and after a line, its terminator included,
    changes nothing in what the three filters yield. *)
Theorem filters_ignore_padding isdigit (ws1 line ws2 : str) :
  Forall (fun c => Py.isspace c = true) ws1 ->
  Forall (fun c => Py.isspace c = true) ws2 ->
  hosts_from_config_lines (ws1 ++ line ++ ws2) = hosts_from_config_lines line
  /\ hosts_from_known_hosts isdigit (ws1 ++ line ++ ws2)
     = hosts_from_known_hosts isdigit line
  /\ hosts_from_hosts (ws1 ++ line ++ ws2) = hosts_from_hosts line.
Proof.
  intros H1 H2.
  unfold hosts_from_config_lines, hosts_from_known_hosts, hosts_from_hosts.
  rewrite (strip_padding ws1 line ws2 H1 H2). repeat split.
Qed.

Lemma filters_ignore_padding_witness :
  hosts_from_config_lines (py "	 " ++ py "Host web" ++ py " 
")
  = hosts_from_config_lines (py "Host web")
  /\ hosts_from_known_hosts ascii_digit (py "	 " ++ py "Host web" ++ py " 
")
     = hosts_from_known_hosts ascii_digit (py "Host web")
  /\ hosts_from_hosts (py "	 " ++ py "Host web" ++ py " 
")
     = hosts_from_hosts (py "Host web").
Proof.
  apply filters_ignore_padding; repeat constructor.
Defined.

(** X12: for a line that is whitespace, a first field [kw], whitespace,
    a second field [h], and then nothing or whitespace and more, the filter
    of ssh config yields [h] alone when [kw] is exactly "Host" and nothing
    when it is anything else; for a line of one field, "Host" included,
    it yields nothing. *)
Theorem hosts_from_config_lines_spec (ws kw sp h rest : str) :
  Forall (fun c => Py.isspace c = true) ws ->
  kw <> [] -> Forall (fun c => Py.isspace c = false) kw ->
  sp <> [] -> Forall (fun c => Py.isspace c = true) sp ->
  h <> [] -> Forall (fun c => Py.isspace c = false) h ->
  field_end rest ->
  hosts_from_config_lines (ws ++ kw ++ sp ++ h ++ rest)
  = (if bool_decide (kw = py "Host") then [h] else [])
  /\ hosts_from_config_lines (ws ++ kw ++ sp) = []
  /\ hosts_from_config_lines (ws ++ kw) = [].
Proof.
  intros Hws Hkw Hkw' Hsp Hsp' Hh Hh' Hrest.
  assert (Hend : forall t, field_end (sp ++ t)).
  { intros t. destruct Hsp' as [|c sp' Hc _]; [congruence|].
    right. exists c, (sp' ++ t). split; [reflexivity|exact Hc]. }
  unfold hosts_from_config_lines. rewrite !split_strip.
  split; [|split].
  - rewrite (split_first_field ws kw _ Hws Hkw Hkw' (Hend _)).
    rewrite (split_first_field sp h rest Hsp' Hh Hh' Hrest). reflexivity.
  - rewrite (split_first_field ws kw sp Hws Hkw Hkw');
      [|rewrite <- (app_nil_r sp); apply Hend].
    unfold Py.split. rewrite <- (app_nil_r sp).
    rewrite (split_from_space_prefix sp [] Hsp'). reflexivity.
  - rewrite <- (app_nil_r kw).
    rewrite (split_first_field ws kw [] Hws Hkw Hkw'); [reflexivity|].
    left. reflexivity.
Qed.

Lemma hosts_from_config_lines_spec_witness :
  (hosts_from_config_lines (py "  " ++ py "Host" ++ py " 	" ++ py "web"
                              ++ py " db
") = [py "web"]
   /\ hosts_from_config_lines (py "  " ++ py "Host" ++ py " 	") = []
   /\ hosts_from_config_lines (py "  " ++ py "Host") = [])
  /\ (hosts_from_config_lines (py "" ++ py "host" ++ py " " ++ py "web"
                                 ++ py "") = []
      /\ hosts_from_config_lines (py "" ++ py "host" ++ py " ") = []
      /\ hosts_from_config_lines (py "" ++ py "host") = []).
Proof.
  split.
  - apply (hosts_from_config_lines_spec (py "  ") (py "Host") (py " 	")
             (py "web") (py " db
"));
      [repeat constructor|discriminate|repeat constructor|discriminate
      |repeat constructor|discriminate|repeat constructor|].
    right. exists 0x20%N, (py "db
"). split; reflexivity.
  - apply (hosts_from_config_lines_spec (py "") (py "host") (py " ")
             (py "web") (py ""));
      [repeat constructor|discriminate|repeat constructor|discriminate
      |repeat constructor|discriminate|repeat constructor|].
    left. reflexivity.
Defined.

(** ** Classification of the words *)

Lemma map_const_replicate {A B} (x : B) (l : list A) :
  List.map (fun _ => x) l = replicate (length l) x.
Proof. induction l as [|a l IH]; simpl; [reflexivity|]. rewrite IH. reflexivity. Qed.

Lemma classify_shape_from options b words types e :
  classify options b words = (types, e) ->
  length types = length words
  /\ (exists n,
        Forall (fun t => t = py "option" \/ t = py "arg") (take n types)
        /\ (drop n types = []
            \/ (drop n types
                = py "destination" :: replicate (length words - S n) (py "")
                /\ e = false)))
  /\ (forall i, types !! S i = Some (py "arg") ->
                types !! i = Some (py "option"))
  /\ (types !! 0%nat = Some (py "arg") -> b = true).
Proof.
  revert b types e. induction words as [|word rest IH]; intros b types e H.
  - injection H as <- <-. split; [reflexivity|]. split; [|split].
    + exists 0%nat. split; [constructor|left; reflexivity].
    + intros i Hi. discriminate.
    + discriminate.
  - cbn [classify] in H. destruct b.
    + destruct (classify options false rest) as [ts e'] eqn:Hrec.
      injection H as <- <-.
      destruct (IH _ _ _ Hrec) as (Hlen & (n & Hn & Hdrop) & Hargs & Hfirst).
      split; [simpl; lia|]. split; [|split].
      * exists (S n). split; [constructor; [right; reflexivity|exact Hn]|].
        exact Hdrop.
      * intros [|i] Hi; simpl in *; [|apply Hargs, Hi].
        specialize (Hfirst Hi). discriminate.
      * reflexivity.
    + destruct (Py.startswith word (py "-")).
      * destruct (classify options _ rest) as [ts e'] eqn:Hrec.
        injection H as <- <-.
        destruct (IH _ _ _ Hrec) as (Hlen & (n & Hn & Hdrop) & Hargs & _).
        split; [simpl; lia|]. split; [|split].
        -- exists (S n). split; [constructor; [left; reflexivity|exact Hn]|].
           exact Hdrop.
        -- intros [|i] Hi; simpl in *; [reflexivity|apply Hargs, Hi].
        -- discriminate.
      * injection H as <- <-. rewrite map_const_replicate.
        split; [simpl; rewrite length_replicate; reflexivity|].
        split; [|split].
        -- exists 0%nat. split; [constructor|right].
           split; [|reflexivity]. simpl. rewrite Nat.sub_0_r. reflexivity.
        -- intros i Hi. simpl in Hi. apply lookup_replicate in Hi as [Hi _].
           discriminate.
        -- discriminate.
Qed.

(** X13: the types given to the words are as many as the words; they are
    a run of "option" and "arg", in which an "arg" always follows an
    "option" and is never first, then at most one "destination", after
    which every type is left empty and no argument is expected. *)
Theorem classify_shape options words types e :
  classify options false words = (types, e) ->
  length types = length words
  /\ (exists n,
        Forall (fun t => t = py "option" \/ t = py "arg") (take n types)
        /\ (drop n types = []
            \/ (drop n types
                = py "destination" :: replicate (length words - S n) (py "")
                /\ e = false)))
  /\ (forall i, types !! S i = Some (py "arg") ->
                types !! i = Some (py "option"))
  /\ types !! 0%nat <> Some (py "arg").
Proof.
  intros H. destruct (classify_shape_from _ _ _ _ _ H) as (H1 & H2 & H3 & H4).
  repeat (split; [assumption|]). intros E. specialize (H4 E). discriminate.
Qed.

Lemma classify_shape_witness :
  let types := [py "option"; py "arg"; py "option"; py "destination"; py "";
                py ""] in
  length types = 6%nat
  /\ (exists n,
        Forall (fun t => t = py "option" \/ t = py "arg") (take n types)
        /\ (drop n types = []
            \/ (drop n types
                = py "destination" :: replicate (6 - S n) (py "")
                /\ false = false)))
  /\ (forall i, types !! S i = Some (py "arg") ->
                types !! i = Some (py "option"))
  /\ types !! 0%nat <> Some (py "arg").
Proof.
  apply (classify_shape demo_options
           [py "-p"; py "22"; py "-4"; py "host"; py "ls"; py "-l"]).
  vm_compute. reflexivity.
Defined.

Lemma classify_expecting_from options b words types :
  classify options b words = (types, true) ->
  (words = [] /\ b = true)
  \/ exists ws c, words = ws ++ [[0x2D%N; c]]
                  /\ takes_arg options [c] = true.
Proof.
  revert b types. induction words as [|word rest IH]; intros b types H.
  - injection H as _ <-. left. split; reflexivity.
  - right. cbn [classify] in H. destruct b.
    + destruct (classify options false rest) as [ts e'] eqn:Hrec.
      injection H as _ ->.
      destruct (IH _ _ Hrec) as [[_ ?]|(ws & c & -> & Hc)]; [discriminate|].
      exists (word :: ws), c. split; [reflexivity|exact Hc].
    + destruct (Py.startswith word (py "-")) eqn:Hdash; [|discriminate].
      destruct (classify options _ rest) as [ts e'] eqn:Hrec.
      injection H as _ ->.
      destruct (IH _ _ Hrec) as [[-> Hb]|(ws & c & -> & Hc)].
      * apply andb_true_iff in Hb as [Hlen Hb].
        apply Z.eqb_eq in Hlen. unfold Py.len in Hlen.
        destruct word as [|x [|y [|z word]]]; simpl in Hlen; try lia.
        change (Py.getitem [x; y] 1) with (Some y) in Hb.
        change (py "-") with [0x2D%N] in Hdash.
        apply startswith_char in Hdash as [s' [= -> _]].
        exists [], y. split; [reflexivity|exact Hb].
      * exists (word :: ws), c. split; [reflexivity|exact Hc].
Qed.

(** X14: an argument is expected when the loop over the words is left
    only if the last word is a dash and one character whose entry in the
    option table is not empty. *)
Theorem classify_expecting options words types :
  classify options false words = (types, true) ->
  exists ws c, words = ws ++ [[0x2D%N; c]]
               /\ takes_arg options [c] = true.
Proof.
  intros H. destruct (classify_expecting_from _ _ _ _ H)
    as [[_ ?]|?]; [discriminate|assumption].
Qed.

Lemma classify_expecting_witness :
  exists ws c, [py "-4"; py "-p"] = ws ++ [[0x2D%N; c]]
               /\ takes_arg demo_options [c] = true.
Proof.
  apply (classify_expecting demo_options [py "-4"; py "-p"]
           [py "option"; py "option"]).
  vm_compute. reflexivity.
Defined.

(** ** What [complete] writes *)

Lemma index_in_range {A} (l : list A) i :
  - Py.len l <= i < Py.len l -> exists x, index l i = Ret x.
Proof.
  intros H. unfold index, Py.getitem.
  set (j := if i <? 0 then i + Py.len l else i).
  assert (Hj : 0 <= j < Py.len l)
    by (unfold j; destruct (Z.ltb_spec i 0); lia).
  destruct (Z.ltb_spec j 0); [lia|].
  destruct (Z.leb_spec (Py.len l) j); [lia|]. simpl.
  destruct (nth_error l (Z.to_nat j)) as [x|] eqn:E; [eauto|].
  apply nth_error_None in E. unfold Py.len in *. lia.
Qed.

Lemma index_last {A} (l : list A) x : index (l ++ [x]) (-1) = Ret x.
Proof.
  unfold index, Py.getitem. rewrite len_app.
  pose proof (len_nonneg l). change (Py.len [x]) with 1.
  change (-1 <? 0) with true. cbv iota.
  replace (-1 + (Py.len l + 1)) with (Py.len l) by lia.
  destruct (Z.ltb_spec (Py.len l) 0); [lia|].
  destruct (Z.leb_spec (Py.len l + 1) (Py.len l)); [lia|]. simpl.
  unfold Py.len. rewrite Nat2Z.id, nth_error_app2, Nat.sub_diag by lia.
  reflexivity.
Qed.

Lemma complete_destination_frame isdigit env ans prefix ans' name :
  complete_destination isdigit env ans prefix = Ret ans' ->
  name <> py "remote host name" ->
  match_groups ans' !! name = match_groups ans !! name.
Proof.
  unfold complete_destination.
  destruct (known_hosts isdigit env); cbn [mbind outcome_bind];
    try discriminate.
  intros [= <-] Hne. simpl. apply lookup_insert_ne. congruence.
Qed.

Lemma complete_option_frame ans prefix ans' name :
  complete_option ans prefix = Ret ans' ->
  name <> py "option" ->
  match_groups ans' !! name = match_groups ans !! name.
Proof.
  unfold complete_option. destruct option_help_map_Ret as [hm ->].
  cbn [mbind outcome_bind].
  destruct (Py.len prefix <=? 1); intros [= <-] Hne; simpl;
    apply lookup_insert_ne; congruence.
Qed.

(** X15: [complete] changes the collector in the groups
    "remote host name" and "option" at most, and when a new word starts
    it leaves "option" alone as well. *)
Theorem complete_frame isdigit env ans words new_word ans' name :
  complete isdigit env ans words new_word = Ret ans' ->
  name <> py "remote host name" ->
  name <> py "option" \/ new_word = true ->
  match_groups ans' !! name = match_groups ans !! name.
Proof.
  unfold complete. intros H Hhost Hopt.
  destruct (ssh_options env) as [options| |]; try discriminate.
  cbn [mbind outcome_bind] in H.
  destruct (classify options false words) as [types e].
  destruct new_word.
  - destruct (_ && e).
    + destruct (index words (-1)); cbn [mbind outcome_bind] in H;
        try discriminate.
      injection H as <-. reflexivity.
    + eapply complete_destination_frame; eassumption.
  - destruct Hopt as [Hopt|?]; [|discriminate].
    destruct (negb _); [|injection H as <-; reflexivity].
    destruct (index types (-1)) as [t| |]; cbn [mbind outcome_bind] in H;
      try discriminate.
    destruct (_ && _).
    { destruct (index words (-2)); cbn [mbind outcome_bind] in H;
        try discriminate.
      destruct (index words (-1)); cbn [mbind outcome_bind] in H;
        try discriminate.
      injection H as <-. reflexivity. }
    destruct (bool_decide (t = py "destination")).
    { destruct (index words (-1)); cbn [mbind outcome_bind] in H;
        try discriminate.
      eapply complete_destination_frame; eassumption. }
    destruct (bool_decide (t = py "option")).
    { destruct (index words (-1)); cbn [mbind outcome_bind] in H;
        try discriminate.
      eapply complete_option_frame; eassumption. }
    injection H as <-. reflexivity.
Qed.

Definition other_group : Completions :=
  {| match_groups := {[ py "files" := {[ py "a.txt" := py "" ]} ]} |}.

Lemma complete_frame_witness :
  match_groups (set_group other_group (py "option") {[ py "-46" := py "" ]})
    !! py "files"
  = match_groups other_group !! py "files".
Proof.
  apply (complete_frame ascii_digit demo_env other_group [py "-46"] false).
  - vm_compute. reflexivity.
  - discriminate.
  - left. discriminate.
Defined.

Lemma classify_destination options b pre tpre d rest :
  classify options b pre = (tpre, false) ->
  (py "destination" ∉ tpre) ->
  Py.startswith d (py "-") = false ->
  classify options b (pre ++ d :: rest)
  = (tpre ++ py "destination" :: replicate (length rest) (py ""), false).
Proof.
  revert b tpre. induction pre as [|w pre IH]; intros b tpre H Hno Hd.
  - injection H as <- ->. cbn [app classify]. rewrite Hd.
    rewrite map_const_replicate. reflexivity.
  - cbn [app classify] in *. destruct b.
    + destruct (classify options false pre) as [ts e] eqn:Hrec.
      injection H as <- ->.
      rewrite (IH false ts Hrec); [reflexivity| |exact Hd].
      intros Hin. apply Hno. right. exact Hin.
    + destruct (Py.startswith w (py "-")).
      * destruct (classify options _ pre) as [ts e] eqn:Hrec.
        injection H as <- ->.
        rewrite (IH _ ts Hrec); [reflexivity| |exact Hd].
        intros Hin. apply Hno. right. exact Hin.
      * injection H as <-. exfalso. apply Hno. left.
Qed.

(** X16: once the words hold a destination, a word typed after it gets
    no completion: with no new word starting, [complete] returns the
    collector as it was. *)
Theorem complete_after_destination isdigit env options ans pre tpre d rest :
  ssh_options env = Ret options ->
  classify options false pre = (tpre, false) ->
  (py "destination" ∉ tpre) ->
  Py.startswith d (py "-") = false ->
  rest <> [] ->
  complete isdigit env ans (pre ++ d :: rest) false = Ret ans.
Proof.
  intros Hopt Hpre Hno Hd Hrest. unfold complete. rewrite Hopt.
  cbn [mbind outcome_bind].
  rewrite (classify_destination _ _ _ _ _ rest Hpre Hno Hd).
  rewrite bool_decide_eq_false_2 by (destruct pre; discriminate).
  cbn [negb].
  destruct (length rest) as [|n] eqn:Hn; [destruct rest; [congruence|discriminate]|].
  rewrite replicate_S_end, app_comm_cons, app_assoc, index_last.
  reflexivity.
Qed.

Lemma complete_after_destination_witness :
  complete ascii_digit demo_env no_groups
    ([py "-p"; py "22"] ++ py "host7" :: [py "ls"; py "-"]) false
  = Ret no_groups.
Proof.
  apply (complete_after_destination ascii_digit demo_env demo_options
           no_groups [py "-p"; py "22"] [py "option"; py "arg"]).
  - vm_compute. reflexivity.
  - vm_compute. reflexivity.
  - intros H. repeat (apply elem_of_cons in H as [H|H]; [discriminate|]).
    inversion H.
  - reflexivity.
  - discriminate.
Defined.

(** X17: for every prefix, [complete_destination] returns the collector
    with the group "remote host name" holding exactly the known hosts that
    start with the prefix, each mapped to the empty string, whatever the
    collector held there, and with its other groups as they were; with
    the empty prefix the group holds all the known hosts. *)
Theorem complete_destination_spec isdigit env ans prefix hosts :
  known_hosts isdigit env = Ret hosts ->
  exists ans' result,
    complete_destination isdigit env ans prefix = Ret ans'
    /\ match_groups ans' !! py "remote host name" = Some result
    /\ (forall name, name <> py "remote host name" ->
          match_groups ans' !! name = match_groups ans !! name)
    /\ (forall k, is_Some (result !! k)
                  <-> k ∈ hosts /\ Py.startswith k prefix = true)
    /\ (forall k d, result !! k = Some d -> d = py "")
    /\ (prefix = py "" -> forall k, is_Some (result !! k) <-> k ∈ hosts).
Proof.
  intros Hhosts. unfold complete_destination. rewrite Hhosts.
  cbn [mbind outcome_bind]. eexists _, _. split; [reflexivity|].
  split; [apply set_group_lookup|]. split; [apply set_group_lookup|].
  assert (Hdom : forall k,
    is_Some (foldl (fun d k => <[ k := py "" ]> d) (∅ : gmap str str)
               (List.filter (fun k => Py.startswith k prefix) hosts) !! k)
    <-> k ∈ hosts /\ Py.startswith k prefix = true).
  { intros k. rewrite (lookup_foldl_insert (fun k => k)), List.map_id.
    destruct (decide _) as [H|H]; rewrite ?lookup_empty;
      rewrite list_elem_of_In, filter_In, <- list_elem_of_In in H.
    - split; [intros _; exact H|eauto].
    - split; [intros [? ?]; discriminate|tauto]. }
  split; [exact Hdom|]. split.
  - intros k d. rewrite (lookup_foldl_insert (fun k => k)).
    destruct (decide _); rewrite ?lookup_empty; congruence.
  - intros -> k. rewrite Hdom. split; [tauto|]. intros H.
    split; [exact H|reflexivity].
Qed.

Lemma complete_destination_spec_witness :
  exists ans' result,
    complete_destination ascii_digit demo_env other_group (py "10.") = Ret ans'
    /\ match_groups ans' !! py "remote host name" = Some result
    /\ (forall name, name <> py "remote host name" ->
          match_groups ans' !! name = match_groups other_group !! name)
    /\ (forall k, is_Some (result !! k)
                  <-> k ∈ demo_hosts /\ Py.startswith k (py "10.") = true)
    /\ (forall k d, result !! k = Some d -> d = py "")
    /\ (py "10." = py "" -> forall k, is_Some (result !! k) <-> k ∈ demo_hosts).
Proof.
  apply (complete_destination_spec ascii_digit demo_env other_group (py "10.")
           demo_hosts).
  vm_compute. reflexivity.
Defined.

(** ** The table of descriptions *)

Definition help_table : gmap str str :=
  match option_help_map with
  | Ret hm => hm
  | _ => ∅
  end.

Lemma option_help_map_table : option_help_map = Ret help_table.
Proof. vm_compute. reflexivity. Qed.

(** A dash and one character. *)
Definition is_flag (k : str) : bool :=
  match k with
  | [d; _] => (d =? 0x2D)%N
  | _ => false
  end.

Lemma help_table_entries :
  map_Forall (fun k v => is_flag k = true /\ v <> py "") help_table.
Proof. apply (bool_decide_unpack _). vm_compute. exact I. Qed.

(** X18: the table of descriptions is built without an error and has 45
    entries, each from a dash and one character to a description that is
    not empty; for the prefix "-", and for the empty prefix,
    [complete_option] returns the collector with the group "option"
    holding the whole of that table and with its other groups as they
    were. *)
Theorem complete_option_short_prefix (ans : Completions) (prefix : str) :
  prefix = py "" \/ prefix = py "-" ->
  option_help_map = Ret help_table
  /\ (exists ans',
        complete_option ans prefix = Ret ans'
        /\ match_groups ans' !! py "option" = Some help_table
        /\ forall name, name <> py "option" ->
             match_groups ans' !! name = match_groups ans !! name)
  /\ size help_table = 45%nat
  /\ (forall k v, help_table !! k = Some v ->
        (exists c, k = [0x2D%N; c]) /\ v <> py "").
Proof.
  intros Hp.
  assert (Hent : forall k v, help_table !! k = Some v ->
                   (exists c, k = [0x2D%N; c]) /\ v <> py "").
  { intros k v Hk. destruct (help_table_entries k v Hk) as [Hf Hv].
    split; [|exact Hv]. destruct k as [|d [|c [|? ?]]]; try discriminate.
    apply N.eqb_eq in Hf. subst. eauto. }
  split; [exact option_help_map_table|].
  split; [|split; [vm_compute; reflexivity|exact Hent]].
  unfold complete_option. rewrite option_help_map_table.
  cbn [mbind outcome_bind].
  assert (Hlen : (Py.len prefix <=? 1) = true)
    by (destruct Hp as [->| ->]; reflexivity).
  rewrite Hlen. eexists. split; [reflexivity|].
  assert (Hall : filter (fun kv : str * str =>
                           Py.startswith kv.1 prefix = true) help_table
                 = help_table).
  { apply map_filter_id. intros k v Hk. destruct (Hent k v Hk) as [[c ->] _].
    destruct Hp as [->| ->]; reflexivity. }
  rewrite Hall. apply set_group_lookup.
Qed.

Lemma complete_option_short_prefix_witness :
  option_help_map = Ret help_table
  /\ (exists ans',
        complete_option other_group (py "-") = Ret ans'
        /\ match_groups ans' !! py "option" = Some help_table
        /\ forall name, name <> py "option" ->
             match_groups ans' !! name = match_groups other_group !! name)
  /\ size help_table = 45%nat
  /\ (forall k v, help_table !! k = Some v ->
        (exists c, k = [0x2D%N; c]) /\ v <> py "").
Proof.
  apply complete_option_short_prefix. right. reflexivity.
Defined.

(** ** Exceptions that leave [complete] *)

Lemma ssh_options_not_OutOfFuel env : ssh_options env <> OutOfFuel.
Proof.
  unfold ssh_options. destruct (popen_stderr env _); [|discriminate].
  destruct (Utf8.decode _) as [raw|]; [|discriminate].
  unfold parse_usage. apply scan_groups_fuel; [lia|]. unfold Py.len. lia.
Qed.

Lemma parts_yielder_not_OutOfFuel lines pfilter :
  lines <> OutOfFuel -> parts_yielder lines pfilter <> OutOfFuel.
Proof. unfold parts_yielder. destruct lines; simpl; congruence. Qed.

Lemma lines_from_file_not_OutOfFuel env path :
  lines_from_file env path <> OutOfFuel.
Proof. unfold lines_from_file. destruct (open_file env path); discriminate. Qed.

Lemma known_hosts_not_OutOfFuel isdigit env :
  known_hosts isdigit env <> OutOfFuel.
Proof.
  unfold known_hosts, iter_known_hosts.
  repeat match goal with
  | |- context [parts_yielder (lines_from_file env ?p) ?f] =>
      let H := fresh in
      pose proof (parts_yielder_not_OutOfFuel _ f
                    (lines_from_file_not_OutOfFuel env p)) as H;
      destruct (parts_yielder (lines_from_file env p) f);
      cbn [mbind outcome_bind]; [clear H|discriminate|congruence]
  end.
  destruct (lines_from_command_returns env [py "getent"; py "hosts"])
    as [l ->].
  discriminate.
Qed.

Lemma complete_destination_outcomes isdigit env ans prefix :
  complete_destination isdigit env ans prefix <> OutOfFuel
  /\ forall e, complete_destination isdigit env ans prefix = Raise e ->
               known_hosts isdigit env = Raise e.
Proof.
  unfold complete_destination.
  pose proof (known_hosts_not_OutOfFuel isdigit env) as H.
  destruct (known_hosts isdigit env); cbn [mbind outcome_bind];
    [| |congruence]; split; congruence.
Qed.

Lemma complete_option_returns ans prefix :
  exists ans', complete_option ans prefix = Ret ans'.
Proof.
  unfold complete_option. rewrite option_help_map_table.
  cbn [mbind outcome_bind]. destruct (_ <=? 1); eauto.
Qed.

(** X19: [complete] always ends, and an exception that leaves it is one
    that left [ssh_options] or [known_hosts]: the dispatcher itself, its
    indexing of the words and of their types, and the table of
    descriptions raise nothing. *)
Theorem complete_outcomes isdigit env ans words new_word :
  complete isdigit env ans words new_word <> OutOfFuel
  /\ forall e, complete isdigit env ans words new_word = Raise e ->
       ssh_options env = Raise e \/ known_hosts isdigit env = Raise e.
Proof.
  unfold complete.
  pose proof (ssh_options_not_OutOfFuel env) as Hs.
  destruct (ssh_options env) as [options|e0|]; cbn [mbind outcome_bind];
    [|split; [discriminate|intros e [= ->]; left; reflexivity]|congruence].
  clear Hs.
  destruct (classify options false words) as [types ex] eqn:Hc.
  destruct (classify_shape_from _ _ _ _ _ Hc) as (Hlen & _).
  assert (Hdest : forall prefix,
            complete_destination isdigit env ans prefix <> OutOfFuel
            /\ forall e, complete_destination isdigit env ans prefix = Raise e
                 -> Ret options = Raise e
                    \/ known_hosts isdigit env = Raise e).
  { intros prefix.
    destruct (complete_destination_outcomes isdigit env ans prefix) as [H1 H2].
    split; [exact H1|]. intros e He. right. exact (H2 e He). }
  assert (Hdone : forall r : outcome Completions,
            (exists a, r = Ret a) ->
            r <> OutOfFuel
            /\ forall e, r = Raise e ->
                 Ret options = Raise e
                 \/ known_hosts isdigit env = Raise e).
  { intros r [a ->]. split; discriminate. }
  destruct (decide (words = [])) as [->|Hne].
  - destruct new_word; cbn; [apply Hdest|apply Hdone; eauto].
  - rewrite (bool_decide_eq_false_2 _ Hne). cbn [negb andb].
    assert (Hw : 1 <= Py.len words)
      by (destruct words; [congruence|unfold Py.len; simpl; lia]).
    destruct (index_in_range words (-1) ltac:(lia)) as [w Ew].
    destruct (index_in_range types (-1)
                ltac:(unfold Py.len in *; lia)) as [t Et].
    destruct new_word.
    + destruct ex; [|apply Hdest].
      rewrite Ew. cbn [mbind outcome_bind]. apply Hdone.
      unfold complete_arg. eauto.
    + rewrite Et. cbn [mbind outcome_bind].
      destruct (bool_decide (t = py "arg")); cbn [andb].
      * destruct (Z.ltb_spec 1 (Py.len words)).
        -- destruct (index_in_range words (-2) ltac:(lia)) as [f ->].
           rewrite Ew. cbn [mbind outcome_bind]. apply Hdone.
           unfold complete_arg. eauto.
        -- destruct (bool_decide (t = py "destination"));
             [rewrite Ew; cbn [mbind outcome_bind]; apply Hdest|].
           destruct (bool_decide (t = py "option"));
             [|apply Hdone; eauto].
           rewrite Ew. cbn [mbind outcome_bind]. apply Hdone.
           apply complete_option_returns.
      * destruct (bool_decide (t = py "destination"));
          [rewrite Ew; cbn [mbind outcome_bind]; apply Hdest|].
        destruct (bool_decide (t = py "option"));
          [|apply Hdone; eauto].
        rewrite Ew. cbn [mbind outcome_bind]. apply Hdone.
        apply complete_option_returns.
Qed.

(** ** The word that is completed *)

Lemma classify_app options b pre tpre e rest :
  classify options b pre = (tpre, e) ->
  (py "destination" ∉ tpre) ->
  classify options b (pre ++ rest)
  = (tpre ++ (classify options e rest).1, (classify options e rest).2).
Proof.
  revert b tpre. induction pre as [|w pre IH]; intros b tpre H Hno.
  - injection H as <- <-. cbn [app]. destruct (classify options b rest).
    reflexivity.
  - cbn [app classify] in *. destruct b.
    + destruct (classify options false pre) as [ts e0] eqn:Hrec.
      injection H as <- <-.
      rewrite (IH false ts Hrec); [reflexivity|].
      intros Hin. apply Hno. right. exact Hin.
    + destruct (Py.startswith w (py "-")).
      * destruct (classify options _ pre) as [ts e0] eqn:Hrec.
        injection H as <- <-.
        rewrite (IH _ ts Hrec); [reflexivity|].
        intros Hin. apply Hno. right. exact Hin.
      * injection H as <- _. exfalso. apply Hno. left.
Qed.

(** X20: right after a flag whose entry in the option table is not empty,
    nothing is completed: a new word gets no candidates, and neither does
    a word [w] typed there, whatever it is. *)
Theorem complete_flag_argument isdigit env options ans pre tpre c w :
  ssh_options env = Ret options ->
  classify options false pre = (tpre, false) ->
  (py "destination" ∉ tpre) ->
  takes_arg options [c] = true ->
  complete isdigit env ans (pre ++ [[0x2D%N; c]]) true = Ret ans
  /\ complete isdigit env ans (pre ++ [[0x2D%N; c]; w]) false = Ret ans.
Proof.
  intros Hopt Hpre Hno Hc. unfold complete. rewrite Hopt.
  cbn [mbind outcome_bind]. rewrite !(classify_app _ _ _ _ _ _ Hpre Hno).
  assert (H1 : classify options false [[0x2D%N; c]] = ([py "option"], true)).
  { cbn -[takes_arg]. change (Py.getitem [45%N; c] 1) with (Some c).
    cbv iota beta. rewrite Hc. reflexivity. }
  assert (H2 : classify options false [[0x2D%N; c]; w]
               = ([py "option"; py "arg"], false)).
  { cbn -[takes_arg]. change (Py.getitem [45%N; c] 1) with (Some c).
    cbv iota beta. rewrite Hc. reflexivity. }
  rewrite H1, H2. cbn [fst snd]. split.
  - rewrite bool_decide_eq_false_2 by (destruct pre; discriminate).
    cbn [negb andb]. rewrite index_last. reflexivity.
  - rewrite bool_decide_eq_false_2 by (destruct pre; discriminate).
    cbn [negb].
    replace (tpre ++ [py "option"; py "arg"])
      with ((tpre ++ [py "option"]) ++ [py "arg"])
      by (rewrite <- app_assoc; reflexivity).
    rewrite index_last. cbn [mbind outcome_bind].
    rewrite bool_decide_eq_true_2 by reflexivity. cbn [andb].
    assert (Hl : (1 <? Py.len (pre ++ [[0x2D%N; c]; w])) = true).
    { apply Z.ltb_lt. rewrite len_app. pose proof (len_nonneg pre).
      change (Py.len [[0x2D%N; c]; w]) with 2. lia. }
    rewrite Hl.
    destruct (index_in_range (pre ++ [[0x2D%N; c]; w]) (-2)) as [f ->].
    { rewrite len_app. pose proof (len_nonneg pre).
      change (Py.len [[0x2D%N; c]; w]) with 2. lia. }
    replace (pre ++ [[0x2D%N; c]; w]) with ((pre ++ [[0x2D%N; c]]) ++ [w])
      by (rewrite <- app_assoc; reflexivity).
    rewrite index_last. reflexivity.
Qed.

Lemma complete_flag_argument_witness :
  complete ascii_digit demo_env no_groups ([py "-4"] ++ [[0x2D%N; 0x70%N]]) true
  = Ret no_groups
  /\ complete ascii_digit demo_env no_groups
       ([py "-4"] ++ [[0x2D%N; 0x70%N]; py "host7"]) false
     = Ret no_groups.
Proof.
  apply (complete_flag_argument ascii_digit demo_env demo_options no_groups
           [py "-4"] [py "option"]).
  - vm_compute. reflexivity.
  - vm_compute. reflexivity.
  - intros H. apply elem_of_cons in H as [H|H]; [discriminate|inversion H].
  - vm_compute. reflexivity.
Defined.

(** X21: when the words before the last one are options and their
    arguments, with no argument pending, the last word [w], being typed, is
    completed as an option if it starts with a dash and as a destination
    otherwise; as an option of two characters or more it is the only
    candidate: the collector is returned with the group "option" holding
    [w] alone, mapped to the empty string, and with its other groups as
    they were. *)
Theorem complete_last_word isdigit env options ans pre tpre w :
  ssh_options env = Ret options ->
  classify options false pre = (tpre, false) ->
  (py "destination" ∉ tpre) ->
  complete isdigit env ans (pre ++ [w]) false
  = (if Py.startswith w (py "-") then complete_option ans w
     else complete_destination isdigit env ans w)
  /\ (Py.startswith w (py "-") = true -> 2 <= Py.len w ->
      exists ans',
        complete isdigit env ans (pre ++ [w]) false = Ret ans'
        /\ match_groups ans' !! py "option" = Some {[ w := py "" ]}
        /\ forall name, name <> py "option" ->
             match_groups ans' !! name = match_groups ans !! name).
Proof.
  intros Hopt Hpre Hno.
  assert (Hmain : complete isdigit env ans (pre ++ [w]) false
                  = (if Py.startswith w (py "-") then complete_option ans w
                     else complete_destination isdigit env ans w)).
  { unfold complete. rewrite Hopt. cbn [mbind outcome_bind].
    rewrite (classify_app _ _ _ _ _ _ Hpre Hno).
    rewrite bool_decide_eq_false_2 by (destruct pre; discriminate).
    cbn [negb classify].
    destruct (Py.startswith w (py "-")).
    - cbn [fst snd]. rewrite !index_last. reflexivity.
    - cbn [fst snd List.map]. rewrite !index_last. reflexivity. }
  split; [exact Hmain|]. intros Hdash Hlen. rewrite Hmain, Hdash.
  unfold complete_option. rewrite option_help_map_table.
  cbn [mbind outcome_bind].
  destruct (Z.leb_spec (Py.len w) 1); [lia|].
  eexists. split; [reflexivity|]. apply set_group_lookup.
Qed.

Lemma complete_last_word_witness :
  complete ascii_digit demo_env other_group ([py "-p"; py "22"] ++ [py "-46"])
    false
  = (if Py.startswith (py "-46") (py "-")
     then complete_option other_group (py "-46")
     else complete_destination ascii_digit demo_env other_group (py "-46"))
  /\ (Py.startswith (py "-46") (py "-") = true -> 2 <= Py.len (py "-46") ->
      exists ans',
        complete ascii_digit demo_env other_group
          ([py "-p"; py "22"] ++ [py "-46"]) false = Ret ans'
        /\ match_groups ans' !! py "option" = Some {[ py "-46" := py "" ]}
        /\ forall name, name <> py "option" ->
             match_groups ans' !! name = match_groups other_group !! name).
Proof.
  apply (complete_last_word ascii_digit demo_env demo_options other_group
           [py "-p"; py "22"] [py "option"; py "arg"]).
  - vm_compute. reflexivity.
  - vm_compute. reflexivity.
  - intros H. repeat (apply elem_of_cons in H as [H|H]; [discriminate|]).
    inversion H.
Defined.

(** X22: a file of the four that opens and then fails while it is read
    makes [known_hosts] raise, whatever the other sources hold. *)
Theorem known_hosts_raises isdigit env path e :
  path ∈ host_files -> open_file env path = Unreadable e ->
  exists e', known_hosts isdigit env = Raise e'.
Proof.
  intros Hin Hbad. unfold known_hosts, iter_known_hosts, parts_yielder.
  unfold host_files in Hin.
  assert (Hf : forall p, (exists ls, lines_from_file env p = Ret ls)
                         \/ (exists e', lines_from_file env p = Raise e')).
  { intros p. unfold lines_from_file. destruct (open_file env p); eauto. }
  assert (Hb : lines_from_file env path = Raise e)
    by (unfold lines_from_file; rewrite Hbad; reflexivity).
  destruct (Hf (py "~/.ssh/config")) as [[l1 E1]|[e1 E1]]; rewrite E1;
    cbn [mbind outcome_bind]; [|eauto].
  destruct (Hf (py "~/.ssh/known_hosts")) as [[l2 E2]|[e2 E2]]; rewrite E2;
    cbn [mbind outcome_bind]; [|eauto].
  destruct (Hf (py "/etc/ssh/ssh_known_hosts")) as [[l3 E3]|[e3 E3]];
    rewrite E3; cbn [mbind outcome_bind]; [|eauto].
  destruct (Hf (py "/etc/hosts")) as [[l4 E4]|[e4 E4]]; rewrite E4;
    cbn [mbind outcome_bind]; [|eauto].
  exfalso.
  repeat (apply elem_of_cons in Hin as [->|Hin]; [congruence|]).
  inversion Hin.
Qed.

Lemma known_hosts_raises_witness :
  exists e',
    known_hosts ascii_digit
      {| open_file := fun path =>
           if bool_decide (path = py "/etc/hosts")
           then Unreadable UnicodeDecodeError else Readable [];
         check_output := fun _ => None;
         popen_stderr := fun _ => None |}
    = Raise e'.
Proof.
  apply (known_hosts_raises ascii_digit _ (py "/etc/hosts")
           UnicodeDecodeError).
  - repeat constructor.
  - reflexivity.
Defined.
